(** * Payment metering core of the disperser (package [meterer])

    A shallow embedding of the metering file of the package: the request validator
    [MeterRequest], the quorum and window guards, the reservation accountant
    ([IncrementBinUsage]) and the on-demand accountant ([ValidatePayment],
    [ServeOnDemandRequest]), together with the price function
    [PaymentCharged].

    Conventions.
    - Go's fixed-width unsigned integers are integers of [Z]; every place
      where the source truncates or can wrap around is written out with
      [uint32] or [uint64].  Widening conversions and conversions between
      equal types are the identity and are left out.
    - A Go function returning [error] returns [result unit]; [Ok tt] is the
      [nil] error.  A run-time panic (integer division by zero) is the
      third outcome, [Panic].
    - The off-chain store is threaded explicitly: a method that touches
      the store takes the store and returns the new one next to its
      result.  The store keeps every write, also when the request is
      rejected afterwards.
    - [time.Now().Unix()] is the parameter [now]. *)

From Stdlib Require Import ZArith Lia List String.
From stdpp Require Import base option list gmap strings.

Local Open Scope string_scope.
Local Open Scope Z_scope.

(** ** Machine integers *)

Definition uint32 (x : Z) : Z := x mod 4294967296.
Definition uint64 (x : Z) : Z := x mod 18446744073709551616.

Definition is_uint8 (x : Z) : Prop := 0 <= x < 256.
Definition is_uint32 (x : Z) : Prop := 0 <= x < 4294967296.
Definition is_uint64 (x : Z) : Prop := 0 <= x < 18446744073709551616.

(** ** Errors and outcomes *)

(** The values built by [fmt.Errorf]: a plain message, a message with a
    [%d] argument, and a message wrapping another error with [%w]. *)
Inductive error : Type :=
| Errorf (format : string)
| Errorf_d (format : string) (d : Z)
| Errorf_w (format : string) (err : error).

Inductive result (A : Type) : Type :=
| Ok (a : A)
| Err (err : error)
| Panic (reason : string).

Arguments Ok {A} a.
Arguments Err {A} err.
Arguments Panic {A} reason.

Definition divide_by_zero : string := "runtime error: integer divide by zero".

Definition is_ok {A} (r : result A) : bool :=
  match r with Ok _ => true | _ => false end.

(** ** Data model *)

(** network parameters *)
Record Config : Type := mkConfig {
  GlobalBytesPerSecond : Z;  (* uint64 *)
  PricePerChargeable : Z;    (* uint32 *)
  MinChargeableSize : Z;     (* uint32 *)
  ReservationWindow : Z      (* uint32 *)
}.

Record Config_wf (m : Config) : Prop := {
  wf_GlobalBytesPerSecond : is_uint64 (GlobalBytesPerSecond m);
  wf_PricePerChargeable : is_uint32 (PricePerChargeable m);
  wf_MinChargeableSize : is_uint32 (MinChargeableSize m);
  wf_ReservationWindow : is_uint32 (ReservationWindow m)
}.

(** Modelled from the spec: the declaration of [BlobHeader] is outside
    the metering file.  These are the request-header fields of section 3 of
    the specification, which are the fields the metering code reads, at
    the widths it reads them at ([uint32] data length and bin index,
    [uint64] cumulative payment, [uint8] quorum numbers). *)
Record BlobHeader : Type := mkBlobHeader {
  DataLength : Z;            (* uint32 *)
  QuorumNumbers : list Z;    (* []uint8 *)
  AccountID : string;
  BinIndex : Z;              (* uint32 *)
  CumulativePayment : Z      (* uint64 *)
}.

Record BlobHeader_wf (h : BlobHeader) : Prop := {
  wf_DataLength : is_uint32 (DataLength h);
  wf_QuorumNumbers : Forall is_uint8 (QuorumNumbers h);
  wf_BinIndex : is_uint32 (BinIndex h);
  wf_CumulativePayment : is_uint64 (CumulativePayment h)
}.

(** Modelled from the spec: the declaration of [ActiveReservation] is
    outside the metering file; section 3 of the specification lists its
    fields.  The field [QuorumNumbers] of the source is
    [ReservationQuorumNumbers] here, since the header has a field of the
    same name. *)
Record ActiveReservation : Type := mkActiveReservation {
  DataRate : Z;              (* uint64 *)
  StartTimestamp : Z;        (* uint64 *)
  EndTimestamp : Z;          (* uint64 *)
  ReservationQuorumNumbers : list Z   (* []uint8 *)
}.

Record ActiveReservation_wf (r : ActiveReservation) : Prop := {
  wf_DataRate : is_uint64 (DataRate r);
  wf_StartTimestamp : is_uint64 (StartTimestamp r);
  wf_EndTimestamp : is_uint64 (EndTimestamp r)
}.

(** Modelled from the spec: the declaration of [OnDemandPayment] is
    outside the metering file; it carries the deposit, the upper bound on
    what the account may spend.  The field [CumulativePayment] of the source
    is [DepositCumulativePayment] here. *)
Record OnDemandPayment : Type := mkOnDemandPayment {
  DepositCumulativePayment : Z   (* uint64 *)
}.

Definition OnDemandQuorumNumbers : list Z := [0; 1].

(** ** The off-chain store *)

(** Modelled from the spec: the [OffchainStore] type and its methods are
    not part of the metering file.  Section 6 of the specification gives the
    persisted layout: table [ReservationBins] keyed by
    [(account_id, bin_index)] with a usage value, table [GlobalBins] keyed
    by [bin_index], and table [OnDemand] keyed by
    [(account_id, cumulative_payment)] with a data length.  This store
    always answers: the callers keep their branch for a failed store
    operation, but the only failure this store produces is the conflict of
    an insert. *)
Record OffchainStore : Type := mkOffchainStore {
  ReservationBins : gmap (string * Z) Z;
  GlobalBins : gmap Z Z;
  OnDemand : gmap (string * Z) Z
}.

Definition empty_store : OffchainStore :=
  {| ReservationBins := ∅; GlobalBins := ∅; OnDemand := ∅ |}.

Definition bin_usage (s : OffchainStore) (accountID : string) (binIndex : Z) : Z :=
  default 0 (ReservationBins s !! (accountID, binIndex)).

Definition global_usage (s : OffchainStore) (binIndex : Z) : Z :=
  default 0 (GlobalBins s !! binIndex).

(** Modelled from the spec: [increment_reservation_bin(account, bin_index,
    delta) → new_usage], an atomic increment of the counter (created on
    first write) that returns the value after the increment. *)
Definition UpdateReservationBin (s : OffchainStore) (accountID : string)
    (binIndex size : Z) : result Z * OffchainStore :=
  let newUsage := bin_usage s accountID binIndex + size in
  (Ok newUsage,
   {| ReservationBins := <[(accountID, binIndex) := newUsage]> (ReservationBins s);
      GlobalBins := GlobalBins s;
      OnDemand := OnDemand s |}).

(** Modelled from the spec: [increment_global_bin(bin_index, delta) →
    new_usage]. *)
Definition UpdateGlobalBin (s : OffchainStore) (binIndex size : Z)
    : result Z * OffchainStore :=
  let newUsage := global_usage s binIndex + size in
  (Ok newUsage,
   {| ReservationBins := ReservationBins s;
      GlobalBins := <[binIndex := newUsage]> (GlobalBins s);
      OnDemand := OnDemand s |}).

(** Modelled from the spec: [insert_on_demand_payment(account,
    cumulative_payment, data_length) → ok | conflict].  The caller passes
    the header and the chargeable size; the latter is the data length the
    record carries.  An existing record with the same key is a conflict and
    leaves the store as it is. *)
Definition AddOnDemandPayment (s : OffchainStore) (blobHeader : BlobHeader)
    (blobSizeCharged : Z) : result unit * OffchainStore :=
  let key := (AccountID blobHeader, CumulativePayment blobHeader) in
  match OnDemand s !! key with
  | Some _ => (Err (Errorf "exact payment already exists"), s)
  | None =>
      (Ok tt,
       {| ReservationBins := ReservationBins s;
          GlobalBins := GlobalBins s;
          OnDemand := <[key := blobSizeCharged]> (OnDemand s) |})
  end.

(** Modelled from the spec: [delete_on_demand_payment(account,
    cumulative_payment)]. *)
Definition RemoveOnDemandPayment (s : OffchainStore) (accountID : string)
    (payment : Z) : OffchainStore :=
  {| ReservationBins := ReservationBins s;
     GlobalBins := GlobalBins s;
     OnDemand := delete (accountID, payment) (OnDemand s) |}.

(** Modelled from the spec: the records of one account in table
    [OnDemand], as pairs of a cumulative payment and the data length stored
    with it. *)
Definition account_records (s : OffchainStore) (accountID : string) : list (Z * Z) :=
  omap (fun kv : string * Z * Z =>
          if decide (kv.1.1 = accountID) then Some (kv.1.2, kv.2) else None)
       (map_to_list (OnDemand s)).

(** Modelled from the spec: the largest existing record strictly less
    than [payment], 0 if there is none. *)
Fixpoint prev_payment (records : list (Z * Z)) (payment : Z) : Z :=
  match records with
  | [] => 0
  | (p, _) :: rest =>
      let best := prev_payment rest payment in
      if (p <? payment) && (best <? p) then p else best
  end.

(** Modelled from the spec: the smallest existing record strictly greater
    than [payment], with its data length. *)
Fixpoint next_payment (records : list (Z * Z)) (payment : Z) : option (Z * Z) :=
  match records with
  | [] => None
  | (p, len) :: rest =>
      let best := next_payment rest payment in
      if payment <? p then
        match best with
        | Some (q, _) => if p <? q then Some (p, len) else best
        | None => Some (p, len)
        end
      else best
  end.

(** Modelled from the spec: [neighbors(account, cumulative_payment) →
    (prev, next, next_data_length)]: the largest existing record strictly
    less than the payment (0 if none) and the smallest existing record
    strictly greater with its data length (0 and 0 if none). *)
Definition GetRelevantOnDemandRecords (s : OffchainStore) (accountID : string)
    (cumulativePayment : Z) : result (Z * Z * Z) :=
  let records := account_records s accountID in
  let prevPmt := prev_payment records cumulativePayment in
  match next_payment records cumulativePayment with
  | Some (nextPmt, nextPmtDataLength) => Ok (prevPmt, nextPmt, nextPmtDataLength)
  | None => Ok (prevPmt, 0, 0)
  end.

(** ** The on-chain payment state *)

(** Modelled from the spec: the chain adapter is outside the metering
    file.  It is a read-only snapshot: [current_block_number() → u64],
    [active_reservation(block, account) → Reservation | NotFound] and
    [on_demand_payment(block, account) → Deposit | NotFound]; a chain that
    cannot be read has no block number. *)
Record OnchainPaymentState : Type := mkOnchainPaymentState {
  CurrentBlockNumber : option Z;
  ActiveReservations : gmap string ActiveReservation;
  OnDemandPayments : gmap string OnDemandPayment
}.

(** Modelled from the spec: [current_block_number() → u64]. *)
Definition GetCurrentBlockNumber (c : OnchainPaymentState) : result Z :=
  match CurrentBlockNumber c with
  | Some n => Ok n
  | None => Err (Errorf "chain unavailable")
  end.

(** Modelled from the spec: [active_reservation(block, account) →
    Reservation | NotFound]. *)
Definition GetActiveReservationByAccount (c : OnchainPaymentState)
    (blockNumber : Z) (accountID : string) : result ActiveReservation :=
  match ActiveReservations c !! accountID with
  | Some r => Ok r
  | None => Err (Errorf "reservation not found")
  end.

(** Modelled from the spec: [on_demand_payment(block, account) →
    Deposit | NotFound]. *)
Definition GetOnDemandPaymentByAccount (c : OnchainPaymentState)
    (blockNumber : Z) (accountID : string) : result OnDemandPayment :=
  match OnDemandPayments c !! accountID with
  | Some p => Ok p
  | None => Err (Errorf "payment not found")
  end.

(** ** The metering logic *)

(** *** Prices *)

(** Modelled from the spec: [core.RoundUpDivide] is outside the metering
    file; the specification calls it [ceil_div].  It is computed on [uint]
    (64 bits), and a zero divisor is a run-time panic of the integer
    division. *)
Definition RoundUpDivide (a b : Z) : result Z :=
  if b =? 0 then Panic divide_by_zero
  else Ok (uint64 (a + b - 1) / b).

(** BlobSizeCharged returns the chargeable data length for a given data
    length. *)
Definition BlobSizeCharged (m : Config) (dataLength : Z) : Z :=
  Z.max dataLength (MinChargeableSize m).

(** PaymentCharged returns the chargeable price for a given data length.
    Both factors of the product are [uint32], so the product is a [uint32]
    product; it is widened only afterwards. *)
Definition PaymentCharged (m : Config) (dataLength : Z) : result Z :=
  RoundUpDivide (uint32 (BlobSizeCharged m dataLength * PricePerChargeable m))
                (MinChargeableSize m).

(** *** Quorum and window guards *)

(** [slices.Contains] *)
Fixpoint Contains (s : list Z) (v : Z) : bool :=
  match s with
  | [] => false
  | x :: rest => if x =? v then true else Contains rest v
  end.

(** The loop of [ValidateQuorum] over the header's quorum numbers. *)
Fixpoint ValidateQuorum_loop (quorumNumbers allowedQuoroms : list Z) : result unit :=
  match quorumNumbers with
  | [] => Ok tt
  | q :: rest =>
      if negb (Contains allowedQuoroms q)
      then Err (Errorf_d "quorum number mismatch: %d" q)
      else ValidateQuorum_loop rest allowedQuoroms
  end.

Definition ValidateQuorum (blobHeader : BlobHeader) (allowedQuoroms : list Z)
    : result unit :=
  if (length (QuorumNumbers blobHeader) =? 0)%nat
  then Err (Errorf "no quorum params in blob header")
  else ValidateQuorum_loop (QuorumNumbers blobHeader) allowedQuoroms.

(** GetBinIndex returns the current bin index by chunking time by the bin
    interval.  The timestamp is converted to [uint32] before the division. *)
Definition GetBinIndex (timestamp binInterval : Z) : result Z :=
  if binInterval =? 0 then Panic divide_by_zero
  else Ok (uint32 timestamp / binInterval).

(** ValidateBinIndex checks if the provided bin index is valid.  The
    second disjunct is evaluated only when the first is false. *)
Definition ValidateBinIndex (m : Config) (now : Z) (blobHeader : BlobHeader)
    (reservation : ActiveReservation) : result bool :=
  let now := uint64 now in
  match GetBinIndex now (ReservationWindow m) with
  | Ok currentBinIndex =>
      if negb (BinIndex blobHeader =? currentBinIndex)
         && negb (BinIndex blobHeader =? uint32 (currentBinIndex - 1))
      then Ok false
      else
        match GetBinIndex (StartTimestamp reservation) (ReservationWindow m) with
        | Ok startBinIndex =>
            if BinIndex blobHeader <? startBinIndex then Ok false
            else
              match GetBinIndex (EndTimestamp reservation) (ReservationWindow m) with
              | Ok endBinIndex =>
                  if endBinIndex <? BinIndex blobHeader then Ok false else Ok true
              | Err e => Err e
              | Panic r => Panic r
              end
        | Err e => Err e
        | Panic r => Panic r
        end
  | Err e => Err e
  | Panic r => Panic r
  end.

(** ValidateGlobalBinIndex checks the bin index of an on-demand request
    against the local clock at one-second intervals and returns the current
    index.  No function of the metering file calls it. *)
Definition ValidateGlobalBinIndex (now : Z) (blobHeader : BlobHeader) : result Z :=
  let currentBinIndex := uint32 now in
  if negb (BinIndex blobHeader =? currentBinIndex)
     && negb (BinIndex blobHeader =? uint32 (currentBinIndex - 1))
  then Err (Errorf "invalid bin index for on-demand request")
  else Ok currentBinIndex.

(** *** Reservation accountant *)

(** IncrementBinUsage increments the bin usage atomically and checks for
    overflow.  The result of the spill write is dropped. *)
Definition IncrementBinUsage (m : Config) (blobHeader : BlobHeader)
    (reservation : ActiveReservation) (s : OffchainStore)
    : result unit * OffchainStore :=
  let recordedSize := Z.max (DataLength blobHeader) (MinChargeableSize m) in
  match UpdateReservationBin s (AccountID blobHeader) (BinIndex blobHeader) recordedSize with
  | (Ok newUsage, s1) =>
      if newUsage <=? DataRate reservation then (Ok tt, s1)
      else if DataRate reservation <=? uint64 (newUsage - recordedSize)
      then (Err (Errorf "bin has already been filled"), s1)
      else if newUsage <=? uint64 (2 * DataRate reservation) then
        match GetBinIndex (EndTimestamp reservation) (ReservationWindow m) with
        | Ok endBinIndex =>
            if uint32 (BinIndex blobHeader + 2) <=? endBinIndex then
              let '(_, s2) :=
                UpdateReservationBin s1 (AccountID blobHeader)
                  (uint32 (BinIndex blobHeader + 2))
                  (uint64 (newUsage - DataRate reservation)) in
              (Ok tt, s2)
            else (Err (Errorf "overflow usage exceeds bin limit"), s1)
        | Err e => (Err e, s1)
        | Panic r => (Panic r, s1)
        end
      else (Err (Errorf "overflow usage exceeds bin limit"), s1)
  | (Err e, s1) => (Err (Errorf_w "failed to increment bin usage: %w" e), s1)
  | (Panic r, s1) => (Panic r, s1)
  end.

(** ServeReservationRequest handles the rate limiting logic for incoming
    requests *)
Definition ServeReservationRequest (m : Config) (now : Z) (blobHeader : BlobHeader)
    (reservation : ActiveReservation) (s : OffchainStore)
    : result unit * OffchainStore :=
  match ValidateQuorum blobHeader (ReservationQuorumNumbers reservation) with
  | Ok _ =>
      match ValidateBinIndex m now blobHeader reservation with
      | Ok true =>
          match IncrementBinUsage m blobHeader reservation s with
          | (Ok _, s') => (Ok tt, s')
          | (Err e, s') => (Err (Errorf_w "bin overflows: %w" e), s')
          | (Panic r, s') => (Panic r, s')
          end
      | Ok false => (Err (Errorf "invalid bin index for reservation"), s)
      | Err e => (Err e, s)
      | Panic r => (Panic r, s)
      end
  | Err e => (Err (Errorf_w "invalid quorum for reservation: %w" e), s)
  | Panic r => (Panic r, s)
  end.

(** *** On-demand accountant *)

(** ValidatePayment checks if the provided payment header is valid against
    the local accounting. *)
Definition ValidatePayment (m : Config) (blobHeader : BlobHeader)
    (onDemandPayment : OnDemandPayment) (s : OffchainStore) : result unit :=
  if DepositCumulativePayment onDemandPayment <? CumulativePayment blobHeader
  then Err (Errorf "request claims a cumulative payment greater than the on-chain deposit")
  else
    match GetRelevantOnDemandRecords s (AccountID blobHeader) (CumulativePayment blobHeader) with
    | Ok (prevPmt, nextPmt, nextPmtDataLength) =>
        match PaymentCharged m (DataLength blobHeader) with
        | Ok charge =>
            if CumulativePayment blobHeader <? uint64 (prevPmt + charge)
            then Err (Errorf "insufficient cumulative payment increment")
            else if nextPmt =? 0 then Ok tt
            else
              match PaymentCharged m nextPmtDataLength with
              | Ok nextCharge =>
                  if nextPmt <? uint64 (CumulativePayment blobHeader + nextCharge)
                  then Err (Errorf "breaking cumulative payment invariants")
                  else Ok tt
              | Err e => Err e
              | Panic r => Panic r
              end
        | Err e => Err e
        | Panic r => Panic r
        end
    | Err e => Err (Errorf_w "failed to get relevant on-demand records: %w" e)
    | Panic r => Panic r
    end.

(** IncrementGlobalBinUsage increments the global bin usage atomically and
    checks for overflow *)
Definition IncrementGlobalBinUsage (m : Config) (now : Z) (blobSizeCharged : Z)
    (s : OffchainStore) : result unit * OffchainStore :=
  let globalIndex := uint64 now in
  match UpdateGlobalBin s globalIndex blobSizeCharged with
  | (Ok newUsage, s1) =>
      if GlobalBytesPerSecond m <? newUsage
      then (Err (Errorf "global bin usage overflows"), s1)
      else (Ok tt, s1)
  | (Err e, s1) => (Err (Errorf_w "failed to increment global bin usage: %w" e), s1)
  | (Panic r, s1) => (Panic r, s1)
  end.

(** ServeOnDemandRequest handles the rate limiting logic for incoming
    requests *)
Definition ServeOnDemandRequest (m : Config) (now : Z) (blobHeader : BlobHeader)
    (onDemandPayment : OnDemandPayment) (s : OffchainStore)
    : result unit * OffchainStore :=
  match ValidateQuorum blobHeader OnDemandQuorumNumbers with
  | Ok _ =>
      let blobSizeCharged := BlobSizeCharged m (DataLength blobHeader) in
      match AddOnDemandPayment s blobHeader blobSizeCharged with
      | (Ok _, s1) =>
          match ValidatePayment m blobHeader onDemandPayment s1 with
          | Ok _ =>
              match IncrementGlobalBinUsage m now blobSizeCharged s1 with
              | (Ok _, s2) => (Ok tt, s2)
              | (Err _, s2) =>
                  (Err (Errorf "failed global rate limiting"),
                   RemoveOnDemandPayment s2 (AccountID blobHeader)
                     (CumulativePayment blobHeader))
              | (Panic r, s2) => (Panic r, s2)
              end
          | Err e => (Err (Errorf_w "invalid on-demand payment: %w" e), s1)
          | Panic r => (Panic r, s1)
          end
      | (Err e, s1) => (Err (Errorf_w "failed to update cumulative payment: %w" e), s1)
      | (Panic r, s1) => (Panic r, s1)
      end
  | Err e => (Err (Errorf_w "invalid quorum for On-Demand Request: %w" e), s)
  | Panic r => (Panic r, s)
  end.

(** *** Request validator *)

(** MeterRequest validates a blob header and adds it to the meterer's
    state *)
Definition MeterRequest (m : Config) (chain : OnchainPaymentState) (now : Z)
    (header : BlobHeader) (s : OffchainStore) : result unit * OffchainStore :=
  match GetCurrentBlockNumber chain with
  | Ok blockNumber =>
      if CumulativePayment header =? 0 then
        match GetActiveReservationByAccount chain blockNumber (AccountID header) with
        | Ok reservation =>
            match ServeReservationRequest m now header reservation s with
            | (Ok _, s') => (Ok tt, s')
            | (Err e, s') => (Err (Errorf_w "invalid reservation: %w" e), s')
            | (Panic r, s') => (Panic r, s')
            end
        | Err e => (Err (Errorf_w "failed to get active reservation by account: %w" e), s)
        | Panic r => (Panic r, s)
        end
      else
        match GetOnDemandPaymentByAccount chain blockNumber (AccountID header) with
        | Ok onDemandPayment =>
            match ServeOnDemandRequest m now header onDemandPayment s with
            | (Ok _, s') => (Ok tt, s')
            | (Err e, s') => (Err (Errorf_w "invalid on-demand request: %w" e), s')
            | (Panic r, s') => (Panic r, s')
            end
        | Err e => (Err (Errorf_w "failed to get on-demand payment by account: %w" e), s)
        | Panic r => (Panic r, s)
        end
  | Err e => (Err (Errorf_w "failed to get current block number: %w" e), s)
  | Panic r => (Panic r, s)
  end.

(** ** What the specification says, for comparison *)

(** The specification's [ceil_div] and [charge]:
    [charge(length) = ceil_div(max(length, min_chargeable_size) *
    price_per_chargeable, min_chargeable_size)], all arithmetic on 64-bit
    unsigned integers. *)
Definition spec_ceil_div (a b : Z) : Z := uint64 (a + b - 1) / b.

Definition spec_charge (m : Config) (length : Z) : Z :=
  spec_ceil_div (uint64 (Z.max length (MinChargeableSize m) * PricePerChargeable m))
                (MinChargeableSize m).

(** The specification's bin index of a timestamp:
    [floor(seconds / reservation_window)]. *)
Definition spec_bin_index (seconds window : Z) : Z := seconds / window.

(** ** Conditions of the specification *)


(** The bin-index condition of the specification for on-demand requests:
    the index is the current or the previous integer second. *)
Definition current_or_previous_second (now : Z) (blobHeader : BlobHeader) : Prop :=
  BinIndex blobHeader = uint32 now \/ BinIndex blobHeader = uint32 (uint32 now - 1).

(** [prev] is the largest stored payment of the account strictly below
    [payment], and 0 if there is none. *)
Definition is_prev_payment (s : OffchainStore) (accountID : string)
    (payment prev : Z) : Prop :=
  (forall p len, OnDemand s !! (accountID, p) = Some len -> p < payment -> p <= prev) /\
  ((prev = 0 /\
    forall p len, OnDemand s !! (accountID, p) = Some len -> p < payment -> p <= 0) \/
   (prev < payment /\ exists len, OnDemand s !! (accountID, prev) = Some len)).

(** [next] is the smallest stored payment of the account strictly above
    [payment] and [next_len] its data length; both are 0 if there is
    none. *)
Definition is_next_payment (s : OffchainStore) (accountID : string)
    (payment next next_len : Z) : Prop :=
  (next = 0 /\ next_len = 0 /\
   forall p len, OnDemand s !! (accountID, p) = Some len -> p <= payment) \/
  (OnDemand s !! (accountID, next) = Some next_len /\ payment < next /\
   forall p len, OnDemand s !! (accountID, p) = Some len -> payment < p -> next <= p).

(** The reservation accountant as the specification words it: the spill
    condition compares [bin_index + 2] with [floor(end_ts /
    reservation_window)].  The boolean is the decision (accept or reject). *)
Definition spec_IncrementBinUsage (m : Config) (blobHeader : BlobHeader)
    (reservation : ActiveReservation) (s : OffchainStore) : bool * OffchainStore :=
  let size := Z.max (DataLength blobHeader) (MinChargeableSize m) in
  let new_usage := bin_usage s (AccountID blobHeader) (BinIndex blobHeader) + size in
  let s1 := snd (UpdateReservationBin s (AccountID blobHeader) (BinIndex blobHeader) size) in
  if new_usage <=? DataRate reservation then (true, s1)
  else if DataRate reservation <=? new_usage - size then (false, s1)
  else if (new_usage <=? 2 * DataRate reservation)
          && (BinIndex blobHeader + 2 <=?
              spec_bin_index (EndTimestamp reservation) (ReservationWindow m))
  then (true,
        snd (UpdateReservationBin s1 (AccountID blobHeader) (BinIndex blobHeader + 2)
               (new_usage - DataRate reservation)))
  else (false, s1).

(** ** Auxiliary definitions *)

(** The meterer processing a sequence of requests, each at its own clock
    reading, one after the other on the same store. *)
Fixpoint MeterRequests (m : Config) (chain : OnchainPaymentState)
    (requests : list (Z * BlobHeader)) (s : OffchainStore) : OffchainStore :=
  match requests with
  | [] => s
  | (now, header) :: rest =>
      MeterRequests m chain rest (snd (MeterRequest m chain now header s))
  end.

(** The neighbours as values, for statements that compute. *)
Definition stored_prev (s : OffchainStore) (accountID : string) (payment : Z) : Z :=
  prev_payment (account_records s accountID) payment.

Definition stored_next (s : OffchainStore) (accountID : string) (payment : Z) : Z * Z :=
  default (0, 0) (next_payment (account_records s accountID) payment).

(** The price of a data length where [PaymentCharged] returns one. *)
Definition charged (m : Config) (dataLength : Z) : Z :=
  match PaymentCharged m dataLength with
  | Ok c => c
  | _ => 0
  end.

Definition with_BinIndex (blobHeader : BlobHeader) (binIndex : Z) : BlobHeader :=
  {| DataLength := DataLength blobHeader;
     QuorumNumbers := QuorumNumbers blobHeader;
     AccountID := AccountID blobHeader;
     BinIndex := binIndex;
     CumulativePayment := CumulativePayment blobHeader |}.

(** ** Scenarios *)

(** The scenario of the specification's boundary cases: minimum chargeable
    size 1024, price 100, one-minute windows, one mebibyte per second. *)
Definition example_config : Config := mkConfig 1048576 100 1024 60.

Definition example_reservation : ActiveReservation :=
  mkActiveReservation 4096 0 100000 [0; 1].

Definition example_chain : OnchainPaymentState :=
  {| CurrentBlockNumber := Some 1;
     ActiveReservations := {[ "alice" := example_reservation ]};
     OnDemandPayments := {[ "bob" := mkOnDemandPayment 1000000 ]} |}.

(** A reservation request of [dataLength] bytes for bin 10. *)
Definition example_request (dataLength : Z) : BlobHeader :=
  mkBlobHeader dataLength [0] "alice" 10 0.

(** The on-demand scenarios of the specification: an empty history and a
    deposit of 1,000,000; [bob] pays up to 200 for 2048 bytes. *)
Definition example_deposit : OnDemandPayment := mkOnDemandPayment 1000000.

Definition example_payment (dataLength payment : Z) : BlobHeader :=
  mkBlobHeader dataLength [0] "bob" 0 payment.

Definition example_history : OffchainStore :=
  snd (ServeOnDemandRequest example_config 600 (example_payment 2048 200)
         example_deposit empty_store).

(** ** Sequences of requests and histories *)

(** The bytes admitted on the reservation path for one bin of one account
    while the meterer processes a sequence of requests: the sizes charged
    to the accepted requests that name this account and this bin. *)
Fixpoint admitted_bytes (m : Config) (chain : OnchainPaymentState)
    (requests : list (Z * BlobHeader)) (s : OffchainStore)
    (accountID : string) (binIndex : Z) : Z :=
  match requests with
  | [] => 0
  | (now, header) :: rest =>
      let outcome := MeterRequest m chain now header s in
      (if is_ok (fst outcome)
          && (CumulativePayment header =? 0)
          && bool_decide (AccountID header = accountID)
          && (BinIndex header =? binIndex)
       then BlobSizeCharged m (DataLength header) else 0)
      + admitted_bytes m chain rest (snd outcome) accountID binIndex
  end.

(** The bytes admitted on the on-demand path during one second of the
    local clock while the meterer processes a sequence of requests. *)
Fixpoint admitted_on_demand_bytes (m : Config) (chain : OnchainPaymentState)
    (requests : list (Z * BlobHeader)) (s : OffchainStore) (second : Z) : Z :=
  match requests with
  | [] => 0
  | (now, header) :: rest =>
      let outcome := MeterRequest m chain now header s in
      (if is_ok (fst outcome)
          && negb (CumulativePayment header =? 0)
          && (uint64 now =? second)
       then BlobSizeCharged m (DataLength header) else 0)
      + admitted_on_demand_bytes m chain rest (snd outcome) second
  end.

(** The stored payments of an account are consistent when any later
    payment leaves room for its own charge above any earlier one: the
    order the comment of [ValidatePayment] asks for between a payment and
    its neighbours. *)
Definition payments_consistent (m : Config) (s : OffchainStore) (accountID : string) : Prop :=
  forall p q lp lq,
    OnDemand s !! (accountID, p) = Some lp ->
    OnDemand s !! (accountID, q) = Some lq ->
    p < q ->
    p + charged m lq <= q.

(** Every reservation counter of the store lies between 0 and [bound]. *)
Definition bins_below (s : OffchainStore) (bound : Z) : Prop :=
  forall a b, 0 <= bin_usage s a b <= bound.

(** How many requests of a sequence with one account and one cumulative
    payment the meterer accepts, the sequence being metered in order from
    store [s]. *)
Fixpoint accepted_payments (m : Config) (chain : OnchainPaymentState)
    (requests : list (Z * BlobHeader)) (s : OffchainStore)
    (accountID : string) (payment : Z) : nat :=
  match requests with
  | [] => 0%nat
  | (now, header) :: rest =>
      let outcome := MeterRequest m chain now header s in
      Nat.add
        (if is_ok (fst outcome)
            && bool_decide (AccountID header = accountID)
            && (CumulativePayment header =? payment)
         then 1%nat else 0%nat)
        (accepted_payments m chain rest (snd outcome) accountID payment)
  end.

(** The store with the record of an on-demand request added, as
    [AddOnDemandPayment] leaves it. *)
Definition with_payment (m : Config) (blobHeader : BlobHeader) (s : OffchainStore)
    : OffchainStore :=
  snd (AddOnDemandPayment s blobHeader (BlobSizeCharged m (DataLength blobHeader))).

(** ** Tactics *)

(** Closes the four facts about an accountant's outcome once the outcome
    is a constructor. *)
Ltac split_accountant_outcome :=
  repeat split; auto; try discriminate;
  try (intros ? [= <-]; reflexivity).

(** * Properties *)

(** ** The scenarios are well-formed *)

Lemma example_config_wf : Config_wf example_config.
Proof. constructor; unfold is_uint64, is_uint32; cbn; lia. Qed.

Lemma example_request_wf dataLength :
  is_uint32 dataLength -> BlobHeader_wf (example_request dataLength).
Proof.
  intros H. constructor; unfold is_uint64, is_uint32, is_uint8 in *; cbn; try lia.
  repeat constructor; lia.
Qed.

Lemma example_payment_wf dataLength payment :
  is_uint32 dataLength -> is_uint64 payment ->
  BlobHeader_wf (example_payment dataLength payment).
Proof.
  intros H1 H2. constructor; unfold is_uint64, is_uint32, is_uint8 in *; cbn; try lia.
  repeat constructor; lia.
Qed.

(** ** Machine integers *)

Lemma uint32_small x : is_uint32 x -> uint32 x = x.
Proof. unfold is_uint32, uint32. intros H. apply Z.mod_small. lia. Qed.

Lemma uint64_small x : is_uint64 x -> uint64 x = x.
Proof. unfold is_uint64, uint64. intros H. apply Z.mod_small. lia. Qed.

Lemma uint32_range x : is_uint32 (uint32 x).
Proof. unfold is_uint32, uint32. apply Z.mod_pos_bound. lia. Qed.

Lemma uint64_range x : is_uint64 (uint64 x).
Proof. unfold is_uint64, uint64. apply Z.mod_pos_bound. lia. Qed.

Lemma uint64_le x : 0 <= x -> uint64 x <= x.
Proof. unfold uint64. intros H. apply Z.mod_le; lia. Qed.

Lemma uint32_le x : 0 <= x -> uint32 x <= x.
Proof. unfold uint32. intros H. apply Z.mod_le; lia. Qed.

Lemma is_uint32_uint64 x : is_uint32 x -> is_uint64 x.
Proof. unfold is_uint32, is_uint64. lia. Qed.

(** Adding two to a 32-bit index never gives the index back, also when the
    sum wraps around. *)
Lemma uint32_plus_two_neq b : is_uint32 b -> uint32 (b + 2) <> b.
Proof.
  unfold is_uint32, uint32. intros Hb Heq.
  destruct (Z_lt_le_dec (b + 2) 4294967296) as [Hlt | Hge].
  - rewrite Z.mod_small in Heq; lia.
  - assert (Hw : (b + 2) mod 4294967296 = b + 2 - 4294967296).
    { symmetry. apply Z.mod_unique with (q := 1); lia. }
    lia.
Qed.

(** ** Quorum check *)

Lemma Contains_In s v : Contains s v = true <-> In v s.
Proof.
  induction s as [| x rest IH]; simpl.
  - split; [discriminate | tauto].
  - destruct (Z.eqb_spec x v) as [-> | Hne].
    + split; auto.
    + rewrite IH. split; [auto | intros [Heq | Hin]; [congruence | exact Hin]].
Qed.


Lemma ValidateQuorum_loop_cases qs allowed :
  ValidateQuorum_loop qs allowed = Ok tt \/
  exists q, In q qs /\ ~ In q allowed /\
            ValidateQuorum_loop qs allowed = Err (Errorf_d "quorum number mismatch: %d" q).
Proof.
  induction qs as [| q rest IH]; simpl.
  - left; reflexivity.
  - destruct (Contains allowed q) eqn:Hc; simpl.
    + destruct IH as [IH | (q' & Hin & Hnot & IH)]; [left; exact IH |].
      right. exists q'. auto.
    + right. exists q. split; [auto |]. split; [| reflexivity].
      intros Hin. apply Contains_In in Hin. congruence.
Qed.


Lemma ValidateQuorum_outcome blobHeader allowed :
  ValidateQuorum blobHeader allowed = Ok tt \/
  exists e, ValidateQuorum blobHeader allowed = Err e.
Proof.
  unfold ValidateQuorum.
  destruct (length (QuorumNumbers blobHeader) =? 0)%nat; [right; eauto |].
  destruct (ValidateQuorum_loop_cases (QuorumNumbers blobHeader) allowed)
    as [H | (q & _ & _ & H)]; [left | right; eexists]; exact H.
Qed.



(** ** Bin indices *)

Lemma GetBinIndex_nonzero timestamp binInterval :
  binInterval <> 0 ->
  GetBinIndex timestamp binInterval = Ok (uint32 timestamp / binInterval).
Proof.
  intros Hne. unfold GetBinIndex.
  destruct (Z.eqb_spec binInterval 0); [contradiction | reflexivity].
Qed.

Lemma GetBinIndex_zero timestamp : GetBinIndex timestamp 0 = Panic divide_by_zero.
Proof. reflexivity. Qed.

Lemma GetBinIndex_range timestamp binInterval idx :
  0 < binInterval ->
  GetBinIndex timestamp binInterval = Ok idx -> is_uint32 idx.
Proof.
  intros Hpos. rewrite GetBinIndex_nonzero by lia. intros [= <-].
  pose proof (uint32_range timestamp) as Hr. unfold is_uint32 in *.
  split.
  - apply Z.div_pos; lia.
  - apply Z.le_lt_trans with (uint32 timestamp); [| lia].
    apply Z.div_le_upper_bound; nia.
Qed.

(** Past 32 bits the truncated quotient is strictly below the quotient of
    the timestamp itself. *)
Lemma truncated_quotient_lt t w :
  4294967296 <= t -> 0 < w < 4294967296 ->
  (t mod 4294967296) / w < t / w.
Proof.
  intros Ht Hw.
  pose proof (Z.mod_pos_bound t 4294967296 ltac:(lia)) as Hr.
  pose proof (Z.div_mod t 4294967296 ltac:(lia)) as Hdm.
  assert (Hq : 1 <= t / 4294967296) by (apply Z.div_le_lower_bound; lia).
  assert (Hstep : (t mod 4294967296) / w + 1 <= t / w).
  { rewrite <- (Z.div_add (t mod 4294967296) 1 w) by lia.
    apply Z.div_le_mono; lia. }
  lia.
Qed.

(** C10. For a 64-bit timestamp [t] and a window [w > 0], [GetBinIndex]
    returns [(t mod 2^32) / w]: the timestamp is cut to 32 bits before the
    division.  Below 2^32 this is the specification's [floor(t / w)]; from
    2^32 on it is strictly smaller, so it differs from it.  The window
    check of the reservation path takes its current, start and end indices
    from [GetBinIndex], hence from the truncated timestamps. *)
Theorem GetBinIndex_truncates_timestamp :
  forall t w : Z,
    is_uint64 t -> 0 < w < 4294967296 ->
    GetBinIndex t w = Ok ((t mod 4294967296) / w) /\
    (t < 4294967296 -> GetBinIndex t w = Ok (spec_bin_index t w)) /\
    (4294967296 <= t ->
     (t mod 4294967296) / w < spec_bin_index t w /\
     GetBinIndex t w <> Ok (spec_bin_index t w)) /\
    (forall (m : Config) (blobHeader : BlobHeader) (reservation : ActiveReservation),
        ReservationWindow m = w ->
        ValidateBinIndex m t blobHeader reservation =
        Ok (((BinIndex blobHeader =? (t mod 4294967296) / w)
             || (BinIndex blobHeader =? uint32 ((t mod 4294967296) / w - 1)))
            && (((StartTimestamp reservation) mod 4294967296) / w <=? BinIndex blobHeader)
            && (BinIndex blobHeader <=? ((EndTimestamp reservation) mod 4294967296) / w))).
Proof.
  intros t w Ht Hw.
  assert (Hget : forall x, GetBinIndex x w = Ok ((x mod 4294967296) / w)).
  { intros x. rewrite GetBinIndex_nonzero by lia. reflexivity. }
  split; [apply Hget |].
  split; [| split].
  - intros Hlt. rewrite Hget. unfold spec_bin_index.
    rewrite Z.mod_small by (unfold is_uint64 in Ht; lia). reflexivity.
  - intros Hge. pose proof (truncated_quotient_lt t w Hge Hw) as Hlt.
    split; [exact Hlt |].
    rewrite Hget. unfold spec_bin_index in *. intros [= Heq]. lia.
  - intros m blobHeader reservation Hwin.
    unfold ValidateBinIndex. rewrite Hwin, !Hget.
    rewrite (uint64_small t Ht).
    destruct (BinIndex blobHeader =? (t mod 4294967296) / w); simpl.
    + destruct (Z.ltb_spec (BinIndex blobHeader) ((StartTimestamp reservation) mod 4294967296 / w));
        destruct (Z.leb_spec ((StartTimestamp reservation) mod 4294967296 / w) (BinIndex blobHeader));
        try lia; simpl; [reflexivity |].
      destruct (Z.ltb_spec ((EndTimestamp reservation) mod 4294967296 / w) (BinIndex blobHeader));
        destruct (Z.leb_spec (BinIndex blobHeader) ((EndTimestamp reservation) mod 4294967296 / w));
        try lia; reflexivity.
    + destruct (BinIndex blobHeader =? uint32 ((t mod 4294967296) / w - 1)); simpl; [| reflexivity].
      destruct (Z.ltb_spec (BinIndex blobHeader) ((StartTimestamp reservation) mod 4294967296 / w));
        destruct (Z.leb_spec ((StartTimestamp reservation) mod 4294967296 / w) (BinIndex blobHeader));
        try lia; simpl; [reflexivity |].
      destruct (Z.ltb_spec ((EndTimestamp reservation) mod 4294967296 / w) (BinIndex blobHeader));
        destruct (Z.leb_spec (BinIndex blobHeader) ((EndTimestamp reservation) mod 4294967296 / w));
        try lia; reflexivity.
Qed.

(** The theorem at the first second past 32 bits, with one-minute windows:
    the code's index is 0 where the specification's is 71582788. *)
Lemma GetBinIndex_truncates_timestamp_witness :
  GetBinIndex 4294967296 60 = Ok 0 /\ spec_bin_index 4294967296 60 = 71582788.
Proof.
  split; [| reflexivity].
  apply (GetBinIndex_truncates_timestamp 4294967296 60); unfold is_uint64; lia.
Defined.

(** ** Prices *)

Lemma RoundUpDivide_nonzero a b :
  b <> 0 -> RoundUpDivide a b = Ok (uint64 (a + b - 1) / b).
Proof.
  intros Hne. unfold RoundUpDivide.
  destruct (Z.eqb_spec b 0); [contradiction | reflexivity].
Qed.

(** [PaymentCharged] has no rejecting outcome: it returns a price, or panics
    when the minimum chargeable size is zero. *)
Lemma PaymentCharged_never_rejects m dataLength e :
  PaymentCharged m dataLength <> Err e.
Proof.
  unfold PaymentCharged, RoundUpDivide.
  destruct (MinChargeableSize m =? 0); discriminate.
Qed.

Lemma PaymentCharged_nonzero m dataLength :
  MinChargeableSize m <> 0 ->
  PaymentCharged m dataLength =
  Ok (uint64 (uint32 (BlobSizeCharged m dataLength * PricePerChargeable m)
              + MinChargeableSize m - 1) / MinChargeableSize m).
Proof. intros Hne. unfold PaymentCharged. apply RoundUpDivide_nonzero, Hne. Qed.

(** The price is a 32-bit quantity: the product is cut to 32 bits before the
    division. *)
Lemma PaymentCharged_range m dataLength c :
  Config_wf m -> PaymentCharged m dataLength = Ok c -> 0 <= c < 4294967296.
Proof.
  intros [_ _ Hmin _] Hc. unfold is_uint32 in Hmin.
  destruct (Z.eq_dec (MinChargeableSize m) 0) as [Hz | Hnz].
  { unfold PaymentCharged, RoundUpDivide in Hc. rewrite Hz in Hc. discriminate. }
  rewrite PaymentCharged_nonzero in Hc by exact Hnz. injection Hc as <-.
  pose proof (uint32_range (BlobSizeCharged m dataLength * PricePerChargeable m)) as Hp.
  unfold is_uint32 in Hp.
  rewrite uint64_small by (unfold is_uint64; lia).
  split.
  - apply Z.div_pos; lia.
  - apply Z.div_lt_upper_bound; nia.
Qed.

(** Where the 32-bit product does not wrap around, the code computes the
    specification's charge. *)
Lemma PaymentCharged_spec_charge m dataLength :
  Config_wf m -> is_uint32 dataLength -> 0 < MinChargeableSize m ->
  BlobSizeCharged m dataLength * PricePerChargeable m < 4294967296 ->
  PaymentCharged m dataLength = Ok (spec_charge m dataLength).
Proof.
  intros [_ Hprice Hmin _] Hlen Hpos Hfit.
  unfold is_uint32 in *. unfold BlobSizeCharged in Hfit.
  rewrite PaymentCharged_nonzero by lia.
  unfold spec_charge, spec_ceil_div, BlobSizeCharged.
  assert (Hprod : 0 <= Z.max dataLength (MinChargeableSize m) * PricePerChargeable m) by nia.
  rewrite uint32_small by (unfold is_uint32; lia).
  rewrite (uint64_small (Z.max _ _ * _)) by (unfold is_uint64; lia).
  reflexivity.
Qed.

Lemma PaymentCharged_spec_charge_witness :
  PaymentCharged (mkConfig 1048576 100 1024 60) 2048 =
  Ok (spec_charge (mkConfig 1048576 100 1024 60) 2048).
Proof.
  apply PaymentCharged_spec_charge;
    [constructor | | | ]; unfold is_uint32, is_uint64, BlobSizeCharged; cbn; lia.
Defined.

(** The chargeable size of a chargeable size is itself, so a record that
    carries the chargeable size is priced like the data length it came
    from. *)
Lemma PaymentCharged_BlobSizeCharged m dataLength :
  PaymentCharged m (BlobSizeCharged m dataLength) = PaymentCharged m dataLength.
Proof.
  unfold PaymentCharged, BlobSizeCharged.
  replace (Z.max (Z.max dataLength (MinChargeableSize m)) (MinChargeableSize m))
    with (Z.max dataLength (MinChargeableSize m)) by lia.
  reflexivity.
Qed.

(** Where the product needs more than 32 bits, the code charges strictly
    less than the specification's charge. *)
Lemma PaymentCharged_undercharges m dataLength c :
  Config_wf m -> is_uint32 dataLength -> 0 < MinChargeableSize m ->
  4294967296 <= BlobSizeCharged m dataLength * PricePerChargeable m ->
  PaymentCharged m dataLength = Ok c ->
  c < spec_charge m dataLength.
Proof.
  intros [_ Hprice Hmin _] Hlen Hpos Hbig Hc.
  unfold is_uint32 in *. unfold BlobSizeCharged in *.
  rewrite PaymentCharged_nonzero in Hc by lia. injection Hc as <-.
  unfold spec_charge, spec_ceil_div, BlobSizeCharged.
  set (d := MinChargeableSize m) in *. set (p := PricePerChargeable m) in *.
  set (x := Z.max dataLength d * p) in *.
  assert (Hx : 0 <= x <= 4294967295 * 4294967295) by (subst x; nia).
  pose proof (uint32_range x) as Hr. unfold is_uint32 in Hr.
  assert (Hgap : uint32 x + 4294967296 <= x).
  { unfold uint32 in *.
    pose proof (Z.div_mod x 4294967296 ltac:(lia)) as Hdm.
    assert (1 <= x / 4294967296) by (apply Z.div_le_lower_bound; lia).
    lia. }
  rewrite (uint64_small x) by (unfold is_uint64; lia).
  rewrite !uint64_small by (unfold is_uint64; lia).
  apply Z.lt_le_trans with ((uint32 x + d - 1 + 1 * d) / d).
  - rewrite Z.div_add by lia. lia.
  - apply Z.div_le_mono; lia.
Qed.

Lemma PaymentCharged_undercharges_witness :
  688509 < spec_charge example_config 50000000.
Proof.
  apply (PaymentCharged_undercharges example_config 50000000 688509);
    [exact example_config_wf | | | | reflexivity];
    unfold is_uint32, BlobSizeCharged; cbn; lia.
Defined.

(** C4 (the code at an input where the product needs more than 32 bits).
    With a minimum chargeable size of 1024 and a price of 100, a data
    length of 50,000,000 gives the product 5,000,000,000.  The code
    multiplies in 32 bits, keeps 705,032,704 and returns 688,509 without
    any overflow check; the 64-bit computation of the specification gives
    4,882,813.  On no input does [PaymentCharged] return an error. *)
Theorem PaymentCharged_wraps_at_32_bits :
  PaymentCharged (mkConfig 1048576 100 1024 60) 50000000 = Ok 688509 /\
  spec_charge (mkConfig 1048576 100 1024 60) 50000000 = 4882813 /\
  50000000 * 100 = 5000000000 /\
  uint32 (50000000 * 100) = 705032704 /\
  (forall m dataLength e, PaymentCharged m dataLength <> Err e).
Proof.
  repeat split; try reflexivity.
  intros m dataLength e. apply PaymentCharged_never_rejects.
Qed.

(** Rounding up is subadditive. *)
Lemma ceil_div_subadditive a b c d :
  0 < d -> c <= a + b ->
  (c + d - 1) / d <= (a + d - 1) / d + (b + d - 1) / d.
Proof.
  intros Hd Hc.
  pose proof (Z.div_mod (a + d - 1) d ltac:(lia)) as Ha.
  pose proof (Z.mod_pos_bound (a + d - 1) d Hd) as Hra.
  pose proof (Z.div_mod (b + d - 1) d ltac:(lia)) as Hb.
  pose proof (Z.mod_pos_bound (b + d - 1) d Hd) as Hrb.
  apply Z.lt_succ_r. apply Z.div_lt_upper_bound; [lia |].
  nia.
Qed.

(** X17.  Where the 32-bit product of the joint length does not wrap
    around, splitting a payload never lowers the total price. *)
Lemma PaymentCharged_subadditive m l1 l2 c1 c2 c12 :
  Config_wf m -> is_uint32 l1 -> is_uint32 l2 ->
  BlobSizeCharged m (l1 + l2) * PricePerChargeable m < 4294967296 ->
  PaymentCharged m l1 = Ok c1 ->
  PaymentCharged m l2 = Ok c2 ->
  PaymentCharged m (l1 + l2) = Ok c12 ->
  c12 <= c1 + c2.
Proof.
  intros [_ Hprice Hmin _] Hl1 Hl2 Hfit H1 H2 H12.
  unfold is_uint32 in *.
  destruct (Z.eq_dec (MinChargeableSize m) 0) as [Hz | Hnz].
  { unfold PaymentCharged, RoundUpDivide in H1. rewrite Hz in H1. discriminate. }
  rewrite PaymentCharged_nonzero in H1, H2, H12 by exact Hnz.
  injection H1 as <-. injection H2 as <-. injection H12 as <-.
  unfold BlobSizeCharged in *.
  set (d := MinChargeableSize m) in *. set (p := PricePerChargeable m) in *.
  assert (Hs1 : 0 <= Z.max l1 d * p <= Z.max (l1 + l2) d * p) by nia.
  assert (Hs2 : 0 <= Z.max l2 d * p <= Z.max (l1 + l2) d * p) by nia.
  rewrite !uint32_small by (unfold is_uint32; lia).
  rewrite !uint64_small by (unfold is_uint64; lia).
  apply ceil_div_subadditive; [lia |].
  assert (Z.max (l1 + l2) d <= Z.max l1 d + Z.max l2 d) by lia.
  nia.
Qed.

Lemma PaymentCharged_subadditive_witness :
  200 <= 100 + 103.
Proof.
  apply (PaymentCharged_subadditive (mkConfig 1048576 100 1024 60) 1000 1048 100 103 200);
    try reflexivity; try (constructor; unfold is_uint64, is_uint32; cbn; lia);
    unfold is_uint32, BlobSizeCharged; cbn; lia.
Defined.

(** C8 (the code at an input where the 32-bit product wraps around).  With
    a minimum chargeable size of 1024 and a price of 4,194,304 the product
    for one chargeable unit is 2^32, which the 32-bit multiplication turns
    into 0: two requests of 1000 bytes are charged 0 each, while a single
    request of 2000 bytes is charged 3,997,696.  The specification's charge
    is 4,194,304 for each half and 8,192,000 for the whole. *)
Theorem PaymentCharged_split_is_free_after_wrap :
  let m := mkConfig 1048576 4194304 1024 60 in
  PaymentCharged m 1000 = Ok 0 /\
  PaymentCharged m (1000 + 1000) = Ok 3997696 /\
  ~ (charged m 1000 + charged m 1000 >= charged m (1000 + 1000) - 1) /\
  spec_charge m 1000 = 4194304 /\
  spec_charge m (1000 + 1000) = 8192000 /\
  spec_charge m 1000 + spec_charge m 1000 >= spec_charge m (1000 + 1000) - 1.
Proof.
  cbv zeta. repeat split; try reflexivity.
  - vm_compute. intros H. apply H. reflexivity.
  - vm_compute. discriminate.
Qed.

(** The specification's own charge is subadditive, so the inequality of the
    specification holds for it with room to spare. *)
Lemma spec_charge_subadditive m l1 l2 :
  Config_wf m -> 0 < MinChargeableSize m ->
  is_uint32 l1 -> is_uint32 l2 -> is_uint32 (l1 + l2) ->
  spec_charge m (l1 + l2) <= spec_charge m l1 + spec_charge m l2.
Proof.
  intros [_ Hprice Hmin _] Hpos Hl1 Hl2 Hl12.
  unfold is_uint32 in *. unfold spec_charge, spec_ceil_div.
  set (d := MinChargeableSize m) in *. set (p := PricePerChargeable m) in *.
  assert (Hb : forall l, 0 <= l < 4294967296 ->
                0 <= Z.max l d * p <= 4294967295 * 4294967295) by (intros; nia).
  pose proof (Hb l1 Hl1). pose proof (Hb l2 Hl2). pose proof (Hb (l1 + l2) Hl12).
  rewrite !(uint64_small (Z.max _ _ * _)) by (unfold is_uint64; lia).
  rewrite !uint64_small by (unfold is_uint64; lia).
  apply ceil_div_subadditive; [lia |].
  assert (Z.max (l1 + l2) d <= Z.max l1 d + Z.max l2 d) by lia.
  nia.
Qed.

Lemma spec_charge_subadditive_witness :
  spec_charge (mkConfig 1048576 4194304 1024 60) (1000 + 1000) <=
  spec_charge (mkConfig 1048576 4194304 1024 60) 1000 +
  spec_charge (mkConfig 1048576 4194304 1024 60) 1000.
Proof.
  apply spec_charge_subadditive;
    [constructor | | | | ]; unfold is_uint32, is_uint64; cbn; lia.
Defined.

(** ** Reservation accountant *)

Lemma bin_usage_UpdateReservationBin s accountID binIndex size a b :
  bin_usage (snd (UpdateReservationBin s accountID binIndex size)) a b =
  if decide ((accountID, binIndex) = (a, b))
  then bin_usage s accountID binIndex + size
  else bin_usage s a b.
Proof.
  unfold UpdateReservationBin, bin_usage; simpl.
  rewrite lookup_insert. destruct (decide ((accountID, binIndex) = (a, b))); reflexivity.
Qed.

Lemma UpdateReservationBin_result s accountID binIndex size :
  fst (UpdateReservationBin s accountID binIndex size) =
  Ok (bin_usage s accountID binIndex + size).
Proof. reflexivity. Qed.

Lemma UpdateReservationBin_other_tables s accountID binIndex size :
  GlobalBins (snd (UpdateReservationBin s accountID binIndex size)) = GlobalBins s /\
  OnDemand (snd (UpdateReservationBin s accountID binIndex size)) = OnDemand s.
Proof. split; reflexivity. Qed.

(** C1 (the code at inputs where the end timestamp needs more than 32
    bits).  A reservation ends at second 2^32 + 600, with one-minute
    windows and a data rate of 4096.  A first request of 5000 bytes for
    bin 9 is to spill into bin 11, since 11 is far below
    [floor(end_ts / 60) = 71582798].  [GetBinIndex] narrows the 64-bit
    timestamp to 32 bits before it divides, so the code takes 10 for the
    end index and rejects the request; the counter of bin 9 keeps the 5000
    bytes and bin 11 gets nothing.  The same happens through
    [MeterRequest] on a present-day clock: at second 1700000000 a request
    for the current bin 28333333 under a reservation that ends at second
    2^32 + 1700000000 is refused its spill, the end index being taken as
    28333333 instead of 99916121. *)
Theorem IncrementBinUsage_truncates_end_timestamp :
  (let m := mkConfig 1048576 100 1024 60 in
   let reservation := mkActiveReservation 4096 0 4294967896 [0; 1] in
   let blobHeader := mkBlobHeader 5000 [0] "alice" 9 0 in
   let outcome := IncrementBinUsage m blobHeader reservation empty_store in
   fst (spec_IncrementBinUsage m blobHeader reservation empty_store) = true /\
   fst outcome = Err (Errorf "overflow usage exceeds bin limit") /\
   spec_bin_index 4294967896 60 = 71582798 /\
   GetBinIndex 4294967896 60 = Ok 10 /\
   bin_usage (snd outcome) "alice" 9 = 5000 /\
   bin_usage (snd outcome) "alice" 11 = 0) /\
  (let m := mkConfig 1048576 100 1024 60 in
   let reservation := mkActiveReservation 4096 0 5994967296 [0; 1] in
   let chain := {| CurrentBlockNumber := Some 1;
                   ActiveReservations := {[ "alice" := reservation ]};
                   OnDemandPayments := ∅ |} in
   let blobHeader := mkBlobHeader 5000 [0] "alice" 28333333 0 in
   let outcome := MeterRequest m chain 1700000000 blobHeader empty_store in
   ValidateBinIndex m 1700000000 blobHeader reservation = Ok true /\
   fst (spec_IncrementBinUsage m blobHeader reservation empty_store) = true /\
   spec_bin_index 5994967296 60 = 99916121 /\
   GetBinIndex 5994967296 60 = Ok 28333333 /\
   fst outcome =
     Err (Errorf_w "invalid reservation: %w"
            (Errorf_w "bin overflows: %w" (Errorf "overflow usage exceeds bin limit"))) /\
   bin_usage (snd outcome) "alice" 28333333 = 5000 /\
   bin_usage (snd outcome) "alice" 28333335 = 0).
Proof. cbv zeta. repeat split; vm_compute; reflexivity. Qed.

(** The reservation accountant written out: the counter of the request's
    bin always takes the increment, and the decision is made on the value
    after the increment.  The subtraction [new_usage - size] is the usage
    before the request; the doubled rate is a 64-bit product and the spill
    index a 32-bit sum. *)
Lemma IncrementBinUsage_unfold :
  forall (m : Config) (blobHeader : BlobHeader) (reservation : ActiveReservation)
         (s : OffchainStore),
    BlobHeader_wf blobHeader ->
    ReservationWindow m <> 0 ->
    is_uint64 (bin_usage s (AccountID blobHeader) (BinIndex blobHeader)) ->
    let size := Z.max (DataLength blobHeader) (MinChargeableSize m) in
    let new_usage := bin_usage s (AccountID blobHeader) (BinIndex blobHeader) + size in
    let end_index := (EndTimestamp reservation mod 4294967296) / ReservationWindow m in
    let spill_index := uint32 (BinIndex blobHeader + 2) in
    let s1 := snd (UpdateReservationBin s (AccountID blobHeader) (BinIndex blobHeader) size) in
    let s2 := snd (UpdateReservationBin s1 (AccountID blobHeader) spill_index
                     (new_usage - DataRate reservation)) in
    is_uint64 new_usage ->
    (bin_usage s1 (AccountID blobHeader) (BinIndex blobHeader) = new_usage /\
     bin_usage s2 (AccountID blobHeader) (BinIndex blobHeader) = new_usage /\
     bin_usage s2 (AccountID blobHeader) spill_index =
       bin_usage s (AccountID blobHeader) spill_index + (new_usage - DataRate reservation)) /\
    IncrementBinUsage m blobHeader reservation s =
      if new_usage <=? DataRate reservation then (Ok tt, s1)
      else if DataRate reservation <=? new_usage - size
      then (Err (Errorf "bin has already been filled"), s1)
      else if (new_usage <=? uint64 (2 * DataRate reservation))
              && (spill_index <=? end_index)
      then (Ok tt, s2)
      else (Err (Errorf "overflow usage exceeds bin limit"), s1).
Proof.
  intros m blobHeader reservation s Hwf Hwin Hold size new_usage end_index
    spill_index s1 s2 Hnew.
  pose proof (uint32_plus_two_neq (BinIndex blobHeader) (wf_BinIndex _ Hwf)) as Hne.
  split.
  - fold spill_index in Hne.
    assert (Hk1 : (AccountID blobHeader, spill_index) <>
                  (AccountID blobHeader, BinIndex blobHeader)) by congruence.
    assert (Hk2 : (AccountID blobHeader, BinIndex blobHeader) <>
                  (AccountID blobHeader, spill_index)) by congruence.
    subst s1 s2. rewrite !bin_usage_UpdateReservationBin.
    repeat case_decide; try congruence.
    repeat split; reflexivity.
  - unfold IncrementBinUsage. fold size.
    rewrite (surjective_pairing (UpdateReservationBin s _ _ size)).
    rewrite UpdateReservationBin_result. fold new_usage. fold s1.
    destruct (new_usage <=? DataRate reservation) eqn:Hle; [reflexivity |].
    replace (new_usage - size) with (bin_usage s (AccountID blobHeader) (BinIndex blobHeader))
      by (subst new_usage; lia).
    rewrite (uint64_small _ Hold).
    destruct (DataRate reservation <=? bin_usage s _ _) eqn:Hfilled; [reflexivity |].
    destruct (new_usage <=? uint64 (2 * DataRate reservation)) eqn:Hspill; [| reflexivity].
    rewrite GetBinIndex_nonzero by exact Hwin.
    change (uint32 (EndTimestamp reservation) / ReservationWindow m) with end_index.
    fold spill_index. simpl andb.
    destruct (spill_index <=? end_index); [| reflexivity].
    rewrite uint64_small; [| unfold is_uint64 in *; lia].
    fold s2. reflexivity.
Qed.

(** Where nothing is truncated or wraps around (the end timestamp fits in
    32 bits, the rate is below 2^63, and the spill index is below 2^32),
    the code decides and writes as the specification words it. *)
Lemma IncrementBinUsage_refines_spec m blobHeader reservation s :
  BlobHeader_wf blobHeader ->
  ReservationWindow m <> 0 ->
  is_uint64 (bin_usage s (AccountID blobHeader) (BinIndex blobHeader)) ->
  is_uint64 (bin_usage s (AccountID blobHeader) (BinIndex blobHeader)
             + Z.max (DataLength blobHeader) (MinChargeableSize m)) ->
  0 <= DataRate reservation < 9223372036854775808 ->
  0 <= EndTimestamp reservation < 4294967296 ->
  BinIndex blobHeader + 2 < 4294967296 ->
  (is_ok (fst (IncrementBinUsage m blobHeader reservation s)),
   snd (IncrementBinUsage m blobHeader reservation s)) =
  spec_IncrementBinUsage m blobHeader reservation s.
Proof.
  intros Hwf Hwin Hold Hnew Hrate Hend Hbin.
  destruct (IncrementBinUsage_unfold m blobHeader reservation s Hwf Hwin Hold Hnew)
    as [_ Heq].
  rewrite Heq. unfold spec_IncrementBinUsage, spec_bin_index.
  pose proof (wf_BinIndex _ Hwf) as Hb. unfold is_uint32 in Hb.
  rewrite (uint64_small (2 * DataRate reservation)) by (unfold is_uint64; lia).
  rewrite (uint32_small (BinIndex blobHeader + 2)) by (unfold is_uint32; lia).
  rewrite (Z.mod_small (EndTimestamp reservation)) by lia.
  repeat match goal with |- context [if ?c then _ else _] => destruct c end;
    reflexivity.
Qed.

Lemma IncrementBinUsage_refines_spec_witness :
  (is_ok (fst (IncrementBinUsage example_config (example_request 5000)
                 example_reservation empty_store)),
   snd (IncrementBinUsage example_config (example_request 5000)
          example_reservation empty_store)) =
  spec_IncrementBinUsage example_config (example_request 5000)
    example_reservation empty_store.
Proof.
  apply IncrementBinUsage_refines_spec;
    [apply example_request_wf; unfold is_uint32; lia
    | discriminate
    | vm_compute; split; [discriminate | reflexivity]
    | vm_compute; split; [discriminate | reflexivity]
    | cbn; lia | cbn; lia | cbn; lia].
Defined.

(** The decision of the reservation accountant on the code's own
    arithmetic.  [IncrementBinUsage] first adds
    [size = max(data_length, min_chargeable_size)] to the counter at
    [(account_id, bin_index)], which gives [new_usage], and then: accepts if
    [new_usage ≤ data_rate]; rejects if [new_usage - size ≥ data_rate];
    otherwise, if [new_usage ≤ 2 * data_rate] (the product in 64 bits) and
    [bin_index + 2] (the sum in 32 bits) is at most the end index
    [(end_ts mod 2^32) / reservation_window], adds [new_usage - data_rate]
    to the counter at [(account_id, bin_index + 2)], leaving the counter of
    [bin_index + 1] alone, and accepts; otherwise rejects.  The first
    increment stays in the store in all four cases.  The doubled rate is
    the integer [2 * data_rate] for rates below 2^63, the spill index is
    the integer [bin_index + 2] below 2^32, and the end index is
    [floor(end_ts / reservation_window)] for end timestamps below 2^32. *)
Theorem IncrementBinUsage_decision :
  forall (m : Config) (blobHeader : BlobHeader) (reservation : ActiveReservation)
         (s : OffchainStore),
    BlobHeader_wf blobHeader ->
    ReservationWindow m <> 0 ->
    is_uint64 (bin_usage s (AccountID blobHeader) (BinIndex blobHeader)) ->
    is_uint64 (bin_usage s (AccountID blobHeader) (BinIndex blobHeader)
               + Z.max (DataLength blobHeader) (MinChargeableSize m)) ->
    let account := AccountID blobHeader in
    let bin := BinIndex blobHeader in
    let size := Z.max (DataLength blobHeader) (MinChargeableSize m) in
    let new_usage := bin_usage s account bin + size in
    let end_index := (EndTimestamp reservation mod 4294967296) / ReservationWindow m in
    let spill_index := uint32 (bin + 2) in
    let result := fst (IncrementBinUsage m blobHeader reservation s) in
    let s' := snd (IncrementBinUsage m blobHeader reservation s) in
    let spilled :=
      bin_usage s' account bin = new_usage /\
      bin_usage s' account spill_index =
        bin_usage s account spill_index + (new_usage - DataRate reservation) /\
      (forall a b, (a, b) <> (account, bin) -> (a, b) <> (account, spill_index) ->
                   bin_usage s' a b = bin_usage s a b) in
    let not_spilled :=
      bin_usage s' account bin = new_usage /\
      (forall a b, (a, b) <> (account, bin) -> bin_usage s' a b = bin_usage s a b) in
    (new_usage <= DataRate reservation -> result = Ok tt /\ not_spilled) /\
    (DataRate reservation < new_usage ->
     DataRate reservation <= new_usage - size ->
     result = Err (Errorf "bin has already been filled") /\ not_spilled) /\
    (DataRate reservation < new_usage ->
     new_usage - size < DataRate reservation ->
     new_usage <= uint64 (2 * DataRate reservation) ->
     spill_index <= end_index ->
     result = Ok tt /\ spilled) /\
    (DataRate reservation < new_usage ->
     new_usage - size < DataRate reservation ->
     ~ (new_usage <= uint64 (2 * DataRate reservation) /\ spill_index <= end_index) ->
     result = Err (Errorf "overflow usage exceeds bin limit") /\ not_spilled) /\
    (spill_index <> bin /\ spill_index <> bin + 1 /\
     (bin + 2 < 4294967296 -> spill_index = bin + 2)) /\
    GlobalBins s' = GlobalBins s /\ OnDemand s' = OnDemand s /\
    (0 <= DataRate reservation < 9223372036854775808 ->
     uint64 (2 * DataRate reservation) = 2 * DataRate reservation) /\
    (0 <= EndTimestamp reservation < 4294967296 ->
     end_index = spec_bin_index (EndTimestamp reservation) (ReservationWindow m)).
Proof.
  intros m blobHeader reservation s Hwf Hwin Hold Hnew.
  cbv zeta.
  destruct (IncrementBinUsage_unfold m blobHeader reservation s Hwf Hwin Hold Hnew)
    as [(Hs1 & Hs2 & Hs2') Heq].
  set (account := AccountID blobHeader) in *.
  set (bin := BinIndex blobHeader) in *.
  set (size := Z.max (DataLength blobHeader) (MinChargeableSize m)) in *.
  set (new_usage := bin_usage s account bin + size) in *.
  set (spill_index := uint32 (bin + 2)) in *.
  set (s1 := snd (UpdateReservationBin s account bin size)) in *.
  set (s2 := snd (UpdateReservationBin s1 account spill_index
                    (new_usage - DataRate reservation))) in *.
  assert (Hother1 : forall a b, (a, b) <> (account, bin) ->
                                bin_usage s1 a b = bin_usage s a b).
  { intros a b Hab. subst s1. rewrite bin_usage_UpdateReservationBin.
    case_decide; congruence. }
  assert (Hother2 : forall a b, (a, b) <> (account, bin) -> (a, b) <> (account, spill_index) ->
                                bin_usage s2 a b = bin_usage s a b).
  { intros a b Hab Hab'. subst s2. rewrite bin_usage_UpdateReservationBin.
    case_decide; [congruence | apply Hother1, Hab]. }
  rewrite Heq.
  repeat apply conj.
  - intros Hle. apply Z.leb_le in Hle. rewrite Hle. simpl. auto.
  - intros Hgt Hfilled.
    apply Z.leb_gt in Hgt. apply Z.leb_le in Hfilled. rewrite Hgt, Hfilled. simpl. auto.
  - intros Hgt Hfree Hdouble Hend.
    apply Z.leb_gt in Hgt, Hfree. apply Z.leb_le in Hdouble, Hend.
    rewrite Hgt, Hfree, Hdouble, Hend. simpl. auto.
  - intros Hgt Hfree Hno.
    apply Z.leb_gt in Hgt, Hfree. rewrite Hgt, Hfree.
    destruct (Z.leb_spec new_usage (uint64 (2 * DataRate reservation)));
      destruct (Z.leb_spec spill_index
                  ((EndTimestamp reservation mod 4294967296) / ReservationWindow m));
      simpl; auto; exfalso; apply Hno; split; assumption.
  - apply uint32_plus_two_neq, Hwf.
  - pose proof (wf_BinIndex _ Hwf) as Hb. fold bin in Hb.
    subst spill_index. unfold is_uint32, uint32 in *. intros Heq'.
    destruct (Z_lt_le_dec (bin + 2) 4294967296) as [Hlt | Hge].
    + rewrite Z.mod_small in Heq'; lia.
    + assert (Hw : (bin + 2) mod 4294967296 = bin + 2 - 4294967296)
        by (symmetry; apply Z.mod_unique with (q := 1); lia).
      lia.
  - intros Hlt. subst spill_index. apply uint32_small.
    pose proof (wf_BinIndex _ Hwf) as Hb. fold bin in Hb. unfold is_uint32 in *. lia.
  - repeat match goal with |- context [if ?c then _ else _] => destruct c end; reflexivity.
  - repeat match goal with |- context [if ?c then _ else _] => destruct c end; reflexivity.
  - intros Hrate. apply uint64_small. unfold is_uint64. lia.
  - intros Hend. unfold spec_bin_index. rewrite Z.mod_small by lia. reflexivity.
Qed.

(** The second boundary scenario of the specification: the bin holds 3000
    bytes, a request of 2000 bytes brings it to 5000, over the rate of
    4096, and 904 bytes spill into bin 12. *)
Lemma IncrementBinUsage_decision_witness :
  let s := snd (IncrementBinUsage example_config (example_request 3000)
                  example_reservation empty_store) in
  let s' := snd (IncrementBinUsage example_config (example_request 2000)
                   example_reservation s) in
  fst (IncrementBinUsage example_config (example_request 2000) example_reservation s) = Ok tt /\
  bin_usage s' "alice" 10 = 5000 /\
  bin_usage s' "alice" 12 = 904.
Proof.
  cbv zeta.
  assert (Hwf : BlobHeader_wf (example_request 2000))
    by (apply example_request_wf; unfold is_uint32; lia).
  assert (Hwin : ReservationWindow example_config <> 0) by discriminate.
  pose proof (IncrementBinUsage_decision example_config (example_request 2000)
                example_reservation
                (snd (IncrementBinUsage example_config (example_request 3000)
                        example_reservation empty_store)) Hwf Hwin) as H.
  cbv zeta in H.
  destruct H as (_ & _ & Hspill & _).
  - vm_compute. split; [discriminate | reflexivity].
  - vm_compute. split; [discriminate | reflexivity].
  - destruct Hspill as (Hres & Hbin & Hnext & _); try (vm_compute; congruence).
    split; [exact Hres |].
    split; [exact (eq_trans Hbin eq_refl) | exact (eq_trans Hnext eq_refl)].
Defined.

(** ** Bin usage over sequences of requests *)

Lemma ValidateBinIndex_window_nonzero m now blobHeader reservation b :
  ValidateBinIndex m now blobHeader reservation = Ok b -> ReservationWindow m <> 0.
Proof.
  intros H Hz. unfold ValidateBinIndex in H. rewrite Hz in H. discriminate.
Qed.

Lemma ServeReservationRequest_Ok_inv m now blobHeader reservation s s' :
  ServeReservationRequest m now blobHeader reservation s = (Ok tt, s') ->
  ValidateQuorum blobHeader (ReservationQuorumNumbers reservation) = Ok tt /\
  ValidateBinIndex m now blobHeader reservation = Ok true /\
  ReservationWindow m <> 0 /\
  IncrementBinUsage m blobHeader reservation s = (Ok tt, s').
Proof.
  unfold ServeReservationRequest. intros H.
  destruct (ValidateQuorum blobHeader (ReservationQuorumNumbers reservation))
    as [[] | e | r] eqn:Hq; try discriminate.
  destruct (ValidateBinIndex m now blobHeader reservation) as [[|] | e | r] eqn:Hb;
    try discriminate.
  destruct (IncrementBinUsage m blobHeader reservation s) as [[[] | e | r] s1] eqn:Hi;
    try discriminate.
  injection H as <-.
  repeat split; try reflexivity.
  eapply ValidateBinIndex_window_nonzero; eassumption.
Qed.

Lemma MeterRequest_reservation_Ok_inv m chain now header s s' :
  CumulativePayment header = 0 ->
  MeterRequest m chain now header s = (Ok tt, s') ->
  exists reservation,
    ActiveReservations chain !! AccountID header = Some reservation /\
    ServeReservationRequest m now header reservation s = (Ok tt, s').
Proof.
  unfold MeterRequest, GetCurrentBlockNumber, GetActiveReservationByAccount.
  intros Hcp H. rewrite Hcp in H. simpl in H.
  destruct (CurrentBlockNumber chain); [| discriminate].
  destruct (ActiveReservations chain !! AccountID header) as [r |]; [| discriminate].
  exists r. split; [reflexivity |].
  destruct (ServeReservationRequest m now header r s) as [[[] | e | p] s1];
    try discriminate.
  injection H as <-. reflexivity.
Qed.

(** C3 (as stated, refuted).  The counter takes the increment before the
    decision and nothing takes it back.  With a data rate of 4096, three
    requests of 3000 bytes for the same bin are accepted, accepted with a
    spill, and rejected because the bin is full; the third one still raises
    the stored usage to 9000, above [2 * 4096]. *)
Lemma bin_usage_exceeds_twice_the_rate :
  let requests := [(600, example_request 3000); (600, example_request 3000);
                   (600, example_request 3000)] in
  let s := MeterRequests example_config example_chain requests empty_store in
  ActiveReservations example_chain !! "alice" = Some example_reservation /\
  bin_usage s "alice" 10 = 9000 /\
  ~ (bin_usage s "alice" 10 <= 2 * DataRate example_reservation) /\
  fst (MeterRequest example_config example_chain 600 (example_request 3000)
         (MeterRequests example_config example_chain
            [(600, example_request 3000); (600, example_request 3000)] empty_store)) =
  Err (Errorf_w "invalid reservation: %w"
         (Errorf_w "bin overflows: %w" (Errorf "bin has already been filled"))).
Proof.
  cbv zeta. split; [reflexivity |]. split; [reflexivity |].
  split; [| reflexivity].
  vm_compute. intros H. apply H. reflexivity.
Qed.

(** C3 (amended).  When the meterer accepts a reservation-path request,
    the stored usage of the request's bin right after the request, which is
    the usage before plus the size charged, is at most [2 * data_rate] of
    the reservation the request was served with.  Either the usage is
    within the rate and no other counter moved, or the excess over the
    rate, at most one [data_rate], has been added to the counter of
    [bin_index + 2] (32-bit sum) and no third counter moved. *)
Theorem accepted_reservation_usage_bounded :
  forall (m : Config) (chain : OnchainPaymentState) (now : Z) (header : BlobHeader)
         (s s' : OffchainStore),
    BlobHeader_wf header ->
    CumulativePayment header = 0 ->
    is_uint64 (bin_usage s (AccountID header) (BinIndex header)) ->
    is_uint64 (bin_usage s (AccountID header) (BinIndex header)
               + Z.max (DataLength header) (MinChargeableSize m)) ->
    MeterRequest m chain now header s = (Ok tt, s') ->
    exists reservation,
      ActiveReservations chain !! AccountID header = Some reservation /\
      let account := AccountID header in
      let bin := BinIndex header in
      let spill_index := uint32 (bin + 2) in
      let usage := bin_usage s' account bin in
      usage = bin_usage s account bin + Z.max (DataLength header) (MinChargeableSize m) /\
      usage <= 2 * DataRate reservation /\
      ((usage <= DataRate reservation /\
        forall a b, (a, b) <> (account, bin) -> bin_usage s' a b = bin_usage s a b)
       \/
       (DataRate reservation < usage /\
        bin_usage s' account spill_index =
          bin_usage s account spill_index + (usage - DataRate reservation) /\
        usage - DataRate reservation <= DataRate reservation /\
        spill_index <> bin /\ spill_index <> bin + 1 /\
        forall a b, (a, b) <> (account, bin) -> (a, b) <> (account, spill_index) ->
                    bin_usage s' a b = bin_usage s a b)).
Proof.
  intros m chain now header s s' Hwf Hcp Hold Hnew Hmeter.
  destruct (MeterRequest_reservation_Ok_inv _ _ _ _ _ _ Hcp Hmeter) as (r & Hr & Hserve).
  exists r. split; [exact Hr |]. cbv zeta.
  destruct (ServeReservationRequest_Ok_inv _ _ _ _ _ _ Hserve) as (_ & _ & Hwin & Hinc).
  destruct (IncrementBinUsage_unfold m header r s Hwf Hwin Hold Hnew)
    as [(Hs1 & Hs2 & Hs2') Heq].
  rewrite Hinc in Heq.
  set (account := AccountID header) in *.
  set (bin := BinIndex header) in *.
  set (size := Z.max (DataLength header) (MinChargeableSize m)) in *.
  set (new_usage := bin_usage s account bin + size) in *.
  set (spill_index := uint32 (bin + 2)) in *.
  set (s1 := snd (UpdateReservationBin s account bin size)) in *.
  set (s2 := snd (UpdateReservationBin s1 account spill_index
                    (new_usage - DataRate r))) in *.
  assert (Hother1 : forall a b, (a, b) <> (account, bin) ->
                                bin_usage s1 a b = bin_usage s a b).
  { intros a b Hab. subst s1. rewrite bin_usage_UpdateReservationBin.
    case_decide; congruence. }
  assert (Hother2 : forall a b, (a, b) <> (account, bin) -> (a, b) <> (account, spill_index) ->
                                bin_usage s2 a b = bin_usage s a b).
  { intros a b Hab Hab'. subst s2. rewrite bin_usage_UpdateReservationBin.
    case_decide; [congruence | apply Hother1, Hab]. }
  assert (Hrate : 0 <= size) by (pose proof (wf_DataLength _ Hwf) as Hd;
                                  unfold is_uint32 in Hd; subst size; lia).
  unfold is_uint64 in Hold.
  destruct (Z.leb_spec new_usage (DataRate r)) as [Hle | Hgt].
  - injection Heq as ->. rewrite Hs1.
    split; [reflexivity |]. split; [lia |]. left. split; [exact Hle | exact Hother1].
  - destruct (Z.leb_spec (DataRate r) (new_usage - size)) as [Hfilled | Hfree];
      [discriminate |].
    destruct (Z.leb_spec new_usage (uint64 (2 * DataRate r))) as [Hdouble | Hover];
      simpl in Heq; [| discriminate].
    destruct (Z.leb_spec spill_index
                ((EndTimestamp r mod 4294967296) / ReservationWindow m));
      [| discriminate].
    injection Heq as ->. rewrite Hs2, Hs2'.
    assert (Hr0 : 0 <= DataRate r) by lia.
    pose proof (uint64_le (2 * DataRate r) ltac:(lia)) as Hmod.
    split; [reflexivity |]. split; [lia |]. right.
    split; [exact Hgt |]. split; [reflexivity |]. split; [lia |].
    pose proof (wf_BinIndex _ Hwf) as Hb. fold bin in Hb.
    split; [apply uint32_plus_two_neq, Hb |].
    split; [| exact Hother2].
    subst spill_index. unfold is_uint32, uint32 in *. intros Heq'.
    destruct (Z_lt_le_dec (bin + 2) 4294967296) as [Hlt | Hge].
    + rewrite Z.mod_small in Heq'; lia.
    + assert (Hw : (bin + 2) mod 4294967296 = bin + 2 - 4294967296)
        by (symmetry; apply Z.mod_unique with (q := 1); lia).
      lia.
Qed.

(** The spill of the second boundary scenario, through [MeterRequest]. *)
Lemma accepted_reservation_usage_bounded_witness :
  let s := MeterRequests example_config example_chain
             [(600, example_request 3000)] empty_store in
  let s' := snd (MeterRequest example_config example_chain 600 (example_request 2000) s) in
  exists reservation,
    ActiveReservations example_chain !! "alice" = Some reservation /\
    bin_usage s' "alice" 10 <= 2 * DataRate reservation.
Proof.
  cbv zeta.
  destruct (accepted_reservation_usage_bounded example_config example_chain 600
              (example_request 2000)
              (MeterRequests example_config example_chain
                 [(600, example_request 3000)] empty_store)
              (snd (MeterRequest example_config example_chain 600 (example_request 2000)
                      (MeterRequests example_config example_chain
                         [(600, example_request 3000)] empty_store))))
    as (r & Hr & _ & Hbound & _).
  - apply example_request_wf. unfold is_uint32. lia.
  - reflexivity.
  - vm_compute. split; [discriminate | reflexivity].
  - vm_compute. split; [discriminate | reflexivity].
  - vm_compute. reflexivity.
  - exists r. split; [exact Hr | exact Hbound].
Defined.

(** ** On-demand accountant *)

(** *** Neighbours of a payment in the stored history *)

Lemma elem_of_account_records s accountID p len :
  (p, len) ∈ account_records s accountID <-> OnDemand s !! (accountID, p) = Some len.
Proof.
  unfold account_records. rewrite list_elem_of_omap. split.
  - intros ([[a q] l] & Hin & Hf). simpl in Hf.
    case_decide; [| discriminate]. injection Hf as <- <-. subst a.
    apply elem_of_map_to_list in Hin. exact Hin.
  - intros Hlook. exists (accountID, p, len). split.
    + apply elem_of_map_to_list. exact Hlook.
    + simpl. rewrite decide_True by reflexivity. reflexivity.
Qed.

Section Neighbours.

Variable payment : Z.

Lemma prev_payment_nonneg records : 0 <= prev_payment records payment.
Proof.
  induction records as [| [p len] rest IH]; simpl; [lia |].
  destruct (p <? payment); simpl; [| exact IH].
  destruct (Z.ltb_spec (prev_payment rest payment) p); lia.
Qed.

Lemma prev_payment_upper records p len :
  (p, len) ∈ records -> p < payment -> p <= prev_payment records payment.
Proof.
  induction records as [| [q l] rest IH]; intros Hin Hlt.
  - inversion Hin.
  - simpl. apply elem_of_cons in Hin as [Heq | Hin].
    + injection Heq as <- <-.
      apply Z.ltb_lt in Hlt. rewrite Hlt. simpl.
      destruct (Z.ltb_spec (prev_payment rest payment) p); lia.
    + specialize (IH Hin Hlt).
      destruct (q <? payment); simpl; [| exact IH].
      destruct (Z.ltb_spec (prev_payment rest payment) q); lia.
Qed.

Lemma prev_payment_stored records :
  prev_payment records payment = 0 \/
  (prev_payment records payment < payment /\
   exists len, (prev_payment records payment, len) ∈ records).
Proof.
  induction records as [| [q l] rest IH]; simpl; [left; reflexivity |].
  destruct (Z.ltb_spec q payment) as [Hlt | Hge]; simpl.
  - destruct (Z.ltb_spec (prev_payment rest payment) q) as [Hbetter | Hworse].
    + right. split; [exact Hlt |]. exists l. apply elem_of_cons. left. reflexivity.
    + destruct IH as [IH | (IH & len & Hin)]; [left; exact IH | right].
      split; [exact IH |]. exists len. apply elem_of_cons. right. exact Hin.
  - destruct IH as [IH | (IH & len & Hin)]; [left; exact IH | right].
    split; [exact IH |]. exists len. apply elem_of_cons. right. exact Hin.
Qed.

Lemma next_payment_None records :
  next_payment records payment = None ->
  forall p len, (p, len) ∈ records -> p <= payment.
Proof.
  induction records as [| [q l] rest IH]; intros Hnone p len Hin.
  - inversion Hin.
  - simpl in Hnone. destruct (Z.ltb_spec payment q) as [Hlt | Hge].
    + destruct (next_payment rest payment) as [[q' l'] |]; [| discriminate].
      destruct (q <? q'); discriminate.
    + apply elem_of_cons in Hin as [Heq | Hin].
      * injection Heq as -> ->. exact Hge.
      * eapply IH; eassumption.
Qed.

Lemma next_payment_Some records q l :
  next_payment records payment = Some (q, l) ->
  (q, l) ∈ records /\ payment < q /\
  forall p len, (p, len) ∈ records -> payment < p -> q <= p.
Proof.
  revert q l. induction records as [| [r lr] rest IH]; intros q l Hsome.
  - discriminate.
  - simpl in Hsome. destruct (Z.ltb_spec payment r) as [Hlt | Hge].
    + destruct (next_payment rest payment) as [[q' l'] |] eqn:Hrest.
      * destruct (IH q' l' eq_refl) as (Hin' & Hlt' & Hmin').
        destruct (Z.ltb_spec r q') as [Hbetter | Hworse]; injection Hsome as <- <-.
        -- split; [apply elem_of_cons; left; reflexivity |]. split; [exact Hlt |].
           intros p len Hin Hp. apply elem_of_cons in Hin as [Heq | Hin].
           ++ injection Heq as -> ->. lia.
           ++ specialize (Hmin' p len Hin Hp). lia.
        -- split; [apply elem_of_cons; right; exact Hin' |]. split; [exact Hlt' |].
           intros p len Hin Hp. apply elem_of_cons in Hin as [Heq | Hin].
           ++ injection Heq as -> ->. exact Hworse.
           ++ exact (Hmin' p len Hin Hp).
      * injection Hsome as <- <-.
        split; [apply elem_of_cons; left; reflexivity |]. split; [exact Hlt |].
        intros p len Hin Hp. apply elem_of_cons in Hin as [Heq | Hin].
        -- injection Heq as -> ->. lia.
        -- pose proof (next_payment_None rest Hrest p len Hin). lia.
    + destruct (IH q l Hsome) as (Hin' & Hlt' & Hmin').
      split; [apply elem_of_cons; right; exact Hin' |]. split; [exact Hlt' |].
      intros p len Hin Hp. apply elem_of_cons in Hin as [Heq | Hin].
      * injection Heq as -> ->. lia.
      * exact (Hmin' p len Hin Hp).
Qed.

End Neighbours.

Lemma GetRelevantOnDemandRecords_neighbours s accountID payment :
  exists prev next next_len,
    GetRelevantOnDemandRecords s accountID payment = Ok (prev, next, next_len) /\
    0 <= prev /\
    is_prev_payment s accountID payment prev /\
    is_next_payment s accountID payment next next_len.
Proof.
  unfold GetRelevantOnDemandRecords, is_prev_payment, is_next_payment.
  set (records := account_records s accountID).
  assert (Hprev_upper :
            forall p len, OnDemand s !! (accountID, p) = Some len -> p < payment ->
                          p <= prev_payment records payment).
  { intros p len Hl Hp. apply elem_of_account_records in Hl.
    eapply prev_payment_upper; eassumption. }
  assert (Hprev :
            (prev_payment records payment = 0 /\
             forall p len, OnDemand s !! (accountID, p) = Some len -> p < payment -> p <= 0) \/
            (prev_payment records payment < payment /\
             exists len, OnDemand s !! (accountID, prev_payment records payment) = Some len)).
  { destruct (prev_payment_stored payment records) as [H0 | (Hlt & len & Hin)].
    - left. split; [exact H0 |]. intros p len Hl Hp. rewrite <- H0. eauto.
    - right. split; [exact Hlt |]. exists len. apply elem_of_account_records. exact Hin. }
  pose proof (prev_payment_nonneg payment records) as Hnonneg.
  destruct (next_payment records payment) as [[q l] |] eqn:Hnext.
  - exists (prev_payment records payment), q, l.
    destruct (next_payment_Some _ _ _ _ Hnext) as (Hin & Hlt & Hmin).
    repeat split; try assumption. right.
    split; [apply elem_of_account_records; exact Hin |]. split; [exact Hlt |].
    intros p len Hl Hp. apply elem_of_account_records in Hl. eauto.
  - exists (prev_payment records payment), 0, 0.
    repeat split; try assumption. left.
    split; [reflexivity |]. split; [reflexivity |].
    intros p len Hl. apply elem_of_account_records in Hl.
    eapply next_payment_None; eassumption.
Qed.

Lemma GetRelevantOnDemandRecords_stored s accountID payment :
  GetRelevantOnDemandRecords s accountID payment =
  Ok (stored_prev s accountID payment,
      fst (stored_next s accountID payment),
      snd (stored_next s accountID payment)).
Proof.
  unfold GetRelevantOnDemandRecords, stored_prev, stored_next.
  destruct (next_payment (account_records s accountID) payment) as [[q l] |]; reflexivity.
Qed.

Lemma stored_neighbours s accountID payment :
  0 <= stored_prev s accountID payment /\
  is_prev_payment s accountID payment (stored_prev s accountID payment) /\
  is_next_payment s accountID payment
    (fst (stored_next s accountID payment)) (snd (stored_next s accountID payment)).
Proof.
  destruct (GetRelevantOnDemandRecords_neighbours s accountID payment)
    as (prev & next & len & Heq & H0 & Hp & Hn).
  rewrite GetRelevantOnDemandRecords_stored in Heq.
  injection Heq as <- <- <-. auto.
Qed.

Lemma PaymentCharged_charged m dataLength :
  MinChargeableSize m <> 0 ->
  PaymentCharged m dataLength = Ok (charged m dataLength).
Proof.
  intros Hne. unfold charged. rewrite PaymentCharged_nonzero by exact Hne. reflexivity.
Qed.

Lemma charged_range m dataLength :
  Config_wf m -> 0 <= charged m dataLength < 4294967296.
Proof.
  intros Hwf. unfold charged.
  destruct (PaymentCharged m dataLength) as [c | e | r] eqn:Hc; try lia.
  eapply PaymentCharged_range; eassumption.
Qed.

(** [ValidatePayment] written out on the neighbours of the payment. *)
Lemma ValidatePayment_unfold m blobHeader onDemandPayment s :
  MinChargeableSize m <> 0 ->
  let payment := CumulativePayment blobHeader in
  let prev := stored_prev s (AccountID blobHeader) payment in
  let next := fst (stored_next s (AccountID blobHeader) payment) in
  let next_len := snd (stored_next s (AccountID blobHeader) payment) in
  ValidatePayment m blobHeader onDemandPayment s =
  if DepositCumulativePayment onDemandPayment <? payment
  then Err (Errorf "request claims a cumulative payment greater than the on-chain deposit")
  else if payment <? uint64 (prev + charged m (DataLength blobHeader))
  then Err (Errorf "insufficient cumulative payment increment")
  else if negb (next =? 0) && (next <? uint64 (payment + charged m next_len))
  then Err (Errorf "breaking cumulative payment invariants")
  else Ok tt.
Proof.
  intros Hne. cbv zeta. unfold ValidatePayment.
  rewrite GetRelevantOnDemandRecords_stored.
  rewrite !PaymentCharged_charged by exact Hne.
  destruct (_ <? CumulativePayment blobHeader); [reflexivity |].
  destruct (CumulativePayment blobHeader <? _); [reflexivity |].
  destruct (fst (stored_next s (AccountID blobHeader) (CumulativePayment blobHeader)) =? 0);
    simpl; [reflexivity |].
  destruct (_ <? _); reflexivity.
Qed.

(** The decision of [ValidatePayment] on the code's own charges and
    64-bit sums.  For an on-demand request and the stored history of its
    account, with [prev] the largest stored payment strictly below the request's
    cumulative payment (0 if none), [next] the smallest stored payment
    strictly above it (0 if none) and [next_len] the data length stored with
    [next], [ValidatePayment] rejects if the cumulative payment exceeds the
    on-chain deposit, rejects if [prev + charge(data_length)] exceeds the
    cumulative payment, rejects if [next ≠ 0] and [cumulative_payment +
    charge(next_len)] exceeds [next], and accepts otherwise.  The charges
    are the values of [PaymentCharged] and the sums are Go's [uint64] sums;
    they are the sums of the integers whenever the cumulative payment is at
    most [2^64 - 2^32]. *)
Theorem ValidatePayment_decision :
  forall (m : Config) (blobHeader : BlobHeader) (onDemandPayment : OnDemandPayment)
         (s : OffchainStore),
    Config_wf m ->
    BlobHeader_wf blobHeader ->
    MinChargeableSize m <> 0 ->
    let account := AccountID blobHeader in
    let payment := CumulativePayment blobHeader in
    let deposit := DepositCumulativePayment onDemandPayment in
    let prev := stored_prev s account payment in
    let next := fst (stored_next s account payment) in
    let next_len := snd (stored_next s account payment) in
    let charge := charged m (DataLength blobHeader) in
    let next_charge := charged m next_len in
    let verdict := ValidatePayment m blobHeader onDemandPayment s in
    is_prev_payment s account payment prev /\
    is_next_payment s account payment next next_len /\
    PaymentCharged m (DataLength blobHeader) = Ok charge /\
    PaymentCharged m next_len = Ok next_charge /\
    (deposit < payment ->
     verdict = Err (Errorf "request claims a cumulative payment greater than the on-chain deposit")) /\
    (payment <= deposit ->
     payment < uint64 (prev + charge) ->
     verdict = Err (Errorf "insufficient cumulative payment increment")) /\
    (payment <= deposit ->
     uint64 (prev + charge) <= payment ->
     next <> 0 ->
     next < uint64 (payment + next_charge) ->
     verdict = Err (Errorf "breaking cumulative payment invariants")) /\
    (payment <= deposit ->
     uint64 (prev + charge) <= payment ->
     next = 0 \/ uint64 (payment + next_charge) <= next ->
     verdict = Ok tt) /\
    (payment <= 18446744073709551616 - 4294967296 ->
     uint64 (prev + charge) = prev + charge /\
     uint64 (payment + next_charge) = payment + next_charge).
Proof.
  intros m blobHeader onDemandPayment s Hm Hh Hmin. cbv zeta.
  destruct (stored_neighbours s (AccountID blobHeader) (CumulativePayment blobHeader))
    as (Hprev0 & Hprev & Hnext).
  split; [exact Hprev |]. split; [exact Hnext |].
  split; [apply PaymentCharged_charged, Hmin |].
  split; [apply PaymentCharged_charged, Hmin |].
  rewrite (ValidatePayment_unfold m blobHeader onDemandPayment s Hmin). cbv zeta.
  set (payment := CumulativePayment blobHeader) in *.
  set (prev := stored_prev s (AccountID blobHeader) payment) in *.
  set (next := fst (stored_next s (AccountID blobHeader) payment)) in *.
  set (next_len := snd (stored_next s (AccountID blobHeader) payment)) in *.
  split; [| split; [| split; [| split]]].
  - intros H. apply Z.ltb_lt in H. rewrite H. reflexivity.
  - intros H1 H2. apply Z.ltb_ge in H1. apply Z.ltb_lt in H2. rewrite H1, H2. reflexivity.
  - intros H1 H2 H3 H4.
    apply Z.ltb_ge in H1, H2. apply Z.eqb_neq in H3. apply Z.ltb_lt in H4.
    rewrite H1, H2, H3, H4. reflexivity.
  - intros H1 H2 H3. apply Z.ltb_ge in H1, H2. rewrite H1, H2.
    destruct H3 as [H3 | H3].
    + rewrite H3. reflexivity.
    + apply Z.ltb_ge in H3. rewrite H3. rewrite andb_false_r. reflexivity.
  - intros Hroom.
    pose proof (wf_CumulativePayment _ Hh) as Hp. fold payment in Hp.
    pose proof (charged_range m (DataLength blobHeader) Hm) as Hc.
    pose proof (charged_range m next_len Hm) as Hc'.
    unfold is_uint64 in Hp.
    assert (Hle : prev <= payment).
    { destruct Hprev as [_ [[-> _] | [Hlt _]]]; lia. }
    split; apply uint64_small; unfold is_uint64; lia.
Qed.

(** The fifth boundary scenario of the specification: after a payment up to
    200, a request of 1024 bytes claiming 250 has [prev = 200] and a charge
    of 100, and is rejected for its insufficient increment. *)
Lemma ValidatePayment_decision_witness :
  let blobHeader := example_payment 1024 250 in
  let s1 := snd (AddOnDemandPayment example_history blobHeader 1024) in
  stored_prev s1 "bob" 250 = 200 /\
  charged example_config 1024 = 100 /\
  ValidatePayment example_config blobHeader example_deposit s1 =
  Err (Errorf "insufficient cumulative payment increment").
Proof.
  cbv zeta. split; [reflexivity |]. split; [reflexivity |].
  assert (Hwf : BlobHeader_wf (example_payment 1024 250))
    by (apply example_payment_wf; unfold is_uint32, is_uint64; lia).
  assert (Hmin : MinChargeableSize example_config <> 0) by discriminate.
  pose proof (ValidatePayment_decision example_config (example_payment 1024 250)
                example_deposit
                (snd (AddOnDemandPayment example_history (example_payment 1024 250) 1024))
                example_config_wf Hwf Hmin) as H.
  cbv zeta in H.
  destruct H as (_ & _ & _ & _ & _ & Hreject & _).
  apply Hreject; vm_compute; [discriminate | reflexivity].
Defined.

(** Where nothing wraps around, the decision is the one on the integers:
    the charges are the 64-bit ceilings as long as the products fit in 32
    bits, and the sums are the integer sums as long as the cumulative
    payment leaves room for a charge below 2^64. *)
Lemma ValidatePayment_agrees_where_nothing_wraps m blobHeader onDemandPayment s :
  Config_wf m ->
  BlobHeader_wf blobHeader ->
  0 < MinChargeableSize m ->
  let payment := CumulativePayment blobHeader in
  let prev := stored_prev s (AccountID blobHeader) payment in
  let next := fst (stored_next s (AccountID blobHeader) payment) in
  let next_len := snd (stored_next s (AccountID blobHeader) payment) in
  payment <= 18446744073709551616 - 4294967296 ->
  BlobSizeCharged m (DataLength blobHeader) * PricePerChargeable m < 4294967296 ->
  is_uint32 next_len ->
  BlobSizeCharged m next_len * PricePerChargeable m < 4294967296 ->
  ValidatePayment m blobHeader onDemandPayment s =
  if DepositCumulativePayment onDemandPayment <? payment
  then Err (Errorf "request claims a cumulative payment greater than the on-chain deposit")
  else if payment <? prev + spec_charge m (DataLength blobHeader)
  then Err (Errorf "insufficient cumulative payment increment")
  else if negb (next =? 0) && (next <? payment + spec_charge m next_len)
  then Err (Errorf "breaking cumulative payment invariants")
  else Ok tt.
Proof.
  intros Hm Hh Hpos. cbv zeta. intros Hroom Hfit Hlen Hfit_next.
  rewrite (ValidatePayment_unfold m blobHeader onDemandPayment s) by lia. cbv zeta.
  pose proof (wf_CumulativePayment _ Hh) as Hcp. unfold is_uint64 in Hcp.
  destruct (stored_neighbours s (AccountID blobHeader) (CumulativePayment blobHeader))
    as (Hprev0 & [_ Hprev] & _).
  assert (Hprev_le : stored_prev s (AccountID blobHeader) (CumulativePayment blobHeader)
                     <= CumulativePayment blobHeader)
    by (destruct Hprev as [[-> _] | [Hlt _]]; lia).
  pose proof (charged_range m (DataLength blobHeader) Hm) as Hc.
  pose proof (charged_range m
                (snd (stored_next s (AccountID blobHeader) (CumulativePayment blobHeader)))
                Hm) as Hn.
  rewrite (uint64_small (_ + charged m (DataLength blobHeader))) by (unfold is_uint64; lia).
  rewrite (uint64_small (CumulativePayment blobHeader + _)) by (unfold is_uint64; lia).
  assert (Hcharge : forall len,
             is_uint32 len ->
             BlobSizeCharged m len * PricePerChargeable m < 4294967296 ->
             charged m len = spec_charge m len).
  { intros len Hl Hf. unfold charged.
    rewrite (PaymentCharged_spec_charge m len Hm Hl Hpos Hf). reflexivity. }
  rewrite (Hcharge _ (wf_DataLength _ Hh) Hfit), (Hcharge _ Hlen Hfit_next).
  reflexivity.
Qed.

(** After the payment of 200, a payment of 250 for 1024 bytes is short of
    the charge of 100. *)
Lemma ValidatePayment_agrees_where_nothing_wraps_witness :
  let blobHeader := example_payment 1024 250 in
  let s1 := with_payment example_config blobHeader example_history in
  spec_charge example_config 1024 = 100 /\
  ValidatePayment example_config blobHeader example_deposit s1 =
  Err (Errorf "insufficient cumulative payment increment").
Proof.
  cbv zeta. split; [reflexivity |].
  refine (eq_trans
            (ValidatePayment_agrees_where_nothing_wraps example_config
               (example_payment 1024 250) example_deposit
               (with_payment example_config (example_payment 1024 250) example_history)
               example_config_wf _ _ _ _ _ _) eq_refl).
  - apply example_payment_wf; unfold is_uint32, is_uint64; lia.
  - cbn. lia.
  - cbn. lia.
  - unfold BlobSizeCharged. cbn. lia.
  - vm_compute. split; [discriminate | reflexivity].
  - vm_compute. reflexivity.
Defined.

(** C2 (the code at inputs where its arithmetic wraps around).  The claim
    rejects a request whose cumulative payment is less than the previous
    payment plus the charge of its data length.  The code accepts such
    requests in three ways.  With a price of 100 per 1024 bytes, 50,000,000
    bytes cost 4,882,813, and a first payment of 700,000 is accepted,
    [PaymentCharged] having multiplied in 32 bits.  With a price of
    4,194,304 per 1024 bytes, [MeterRequest] admits 1000 bytes for a first
    payment of 1, the charge being computed as 0.  And after a payment of
    [2^64 - 50], a payment of [2^64 - 10] for a blob that costs 100 is
    accepted, the sum [prev + charge] having wrapped around to 50. *)
Theorem ValidatePayment_accepts_underpaid_request :
  (let m := example_config in
   let blobHeader := example_payment 50000000 700000 in
   let s1 := with_payment m blobHeader empty_store in
   stored_prev s1 "bob" 700000 = 0 /\
   stored_next s1 "bob" 700000 = (0, 0) /\
   spec_charge m 50000000 = 4882813 /\
   PaymentCharged m 50000000 = Ok 688509 /\
   700000 < 0 + spec_charge m 50000000 /\
   ValidatePayment m blobHeader example_deposit s1 = Ok tt) /\
  (let m := mkConfig 1048576 4194304 1024 60 in
   let blobHeader := example_payment 1000 1 in
   stored_prev (with_payment m blobHeader empty_store) "bob" 1 = 0 /\
   spec_charge m 1000 = 4194304 /\
   PaymentCharged m 1000 = Ok 0 /\
   1 < 0 + spec_charge m 1000 /\
   ValidatePayment m blobHeader example_deposit (with_payment m blobHeader empty_store)
   = Ok tt /\
   fst (MeterRequest m example_chain 600 blobHeader empty_store) = Ok tt) /\
  (let m := example_config in
   let history := with_payment m (example_payment 1024 18446744073709551566) empty_store in
   let blobHeader := example_payment 1024 18446744073709551606 in
   let s1 := with_payment m blobHeader history in
   stored_prev s1 "bob" 18446744073709551606 = 18446744073709551566 /\
   stored_next s1 "bob" 18446744073709551606 = (0, 0) /\
   spec_charge m 1024 = 100 /\
   PaymentCharged m 1024 = Ok 100 /\
   18446744073709551606 < 18446744073709551566 + spec_charge m 1024 /\
   uint64 (18446744073709551566 + 100) = 50 /\
   ValidatePayment m blobHeader (mkOnDemandPayment 18446744073709551615) s1 = Ok tt).
Proof. cbv zeta. repeat split; vm_compute; reflexivity. Qed.

(** *** Compensation *)

Lemma AddOnDemandPayment_Ok_inv s blobHeader size s1 :
  AddOnDemandPayment s blobHeader size = (Ok tt, s1) ->
  OnDemand s !! (AccountID blobHeader, CumulativePayment blobHeader) = None /\
  OnDemand s1 = <[(AccountID blobHeader, CumulativePayment blobHeader) := size]> (OnDemand s) /\
  GlobalBins s1 = GlobalBins s /\
  ReservationBins s1 = ReservationBins s.
Proof.
  unfold AddOnDemandPayment. intros H.
  destruct (OnDemand s !! (AccountID blobHeader, CumulativePayment blobHeader)) eqn:Hl;
    [discriminate |].
  injection H as <-. simpl. auto.
Qed.

Lemma IncrementGlobalBinUsage_unfold m now size s :
  IncrementGlobalBinUsage m now size s =
  (if GlobalBytesPerSecond m <? global_usage s (uint64 now) + size
   then Err (Errorf "global bin usage overflows") else Ok tt,
   snd (UpdateGlobalBin s (uint64 now) size)).
Proof.
  unfold IncrementGlobalBinUsage, UpdateGlobalBin. simpl.
  destruct (_ <? _); reflexivity.
Qed.

Lemma global_usage_UpdateGlobalBin s binIndex size :
  global_usage (snd (UpdateGlobalBin s binIndex size)) binIndex =
  global_usage s binIndex + size.
Proof. unfold UpdateGlobalBin, global_usage. simpl. rewrite lookup_insert_eq. reflexivity. Qed.

Lemma OnDemand_UpdateGlobalBin s binIndex size :
  OnDemand (snd (UpdateGlobalBin s binIndex size)) = OnDemand s.
Proof. reflexivity. Qed.

Lemma OnDemand_RemoveOnDemandPayment s accountID payment :
  OnDemand (RemoveOnDemandPayment s accountID payment) =
  delete (accountID, payment) (OnDemand s).
Proof. reflexivity. Qed.

Lemma global_usage_RemoveOnDemandPayment s accountID payment binIndex :
  global_usage (RemoveOnDemandPayment s accountID payment) binIndex = global_usage s binIndex.
Proof. reflexivity. Qed.

(** [ServeOnDemandRequest] after a successful quorum check and insert. *)
Lemma ServeOnDemandRequest_inserted m now blobHeader onDemandPayment s s1 :
  ValidateQuorum blobHeader OnDemandQuorumNumbers = Ok tt ->
  AddOnDemandPayment s blobHeader (BlobSizeCharged m (DataLength blobHeader)) = (Ok tt, s1) ->
  ServeOnDemandRequest m now blobHeader onDemandPayment s =
  match ValidatePayment m blobHeader onDemandPayment s1 with
  | Ok _ =>
      let s2 := snd (UpdateGlobalBin s1 (uint64 now) (BlobSizeCharged m (DataLength blobHeader))) in
      if GlobalBytesPerSecond m
         <? global_usage s1 (uint64 now) + BlobSizeCharged m (DataLength blobHeader)
      then (Err (Errorf "failed global rate limiting"),
            RemoveOnDemandPayment s2 (AccountID blobHeader) (CumulativePayment blobHeader))
      else (Ok tt, s2)
  | Err e => (Err (Errorf_w "invalid on-demand payment: %w" e), s1)
  | Panic r => (Panic r, s1)
  end.
Proof.
  intros Hq Hadd. unfold ServeOnDemandRequest. rewrite Hq, Hadd.
  destruct (ValidatePayment m blobHeader onDemandPayment s1); try reflexivity.
  rewrite IncrementGlobalBinUsage_unfold. cbv zeta.
  destruct (_ <? _); reflexivity.
Qed.

(** C5.  For an on-demand request whose payment record was inserted: if
    the payment is valid and the increment of the global counter of the
    current second pushes it above [global_bytes_per_second], the request
    is rejected and the inserted record is deleted, which leaves the
    on-demand table as it was before the request (the global counter keeps
    the increment); if [ValidatePayment] fails after the insert, the request
    is rejected and the inserted record stays in the store.  The record is
    absent after the request only in the first case. *)
Theorem ServeOnDemandRequest_compensating_delete :
  forall (m : Config) (now : Z) (blobHeader : BlobHeader)
         (onDemandPayment : OnDemandPayment) (s s1 : OffchainStore),
    ValidateQuorum blobHeader OnDemandQuorumNumbers = Ok tt ->
    AddOnDemandPayment s blobHeader (BlobSizeCharged m (DataLength blobHeader)) = (Ok tt, s1) ->
    let key := (AccountID blobHeader, CumulativePayment blobHeader) in
    let size := BlobSizeCharged m (DataLength blobHeader) in
    let second := uint64 now in
    let result := fst (ServeOnDemandRequest m now blobHeader onDemandPayment s) in
    let s' := snd (ServeOnDemandRequest m now blobHeader onDemandPayment s) in
    OnDemand s !! key = None /\
    OnDemand s1 !! key = Some size /\
    (ValidatePayment m blobHeader onDemandPayment s1 = Ok tt ->
     GlobalBytesPerSecond m < global_usage s second + size ->
     result = Err (Errorf "failed global rate limiting") /\
     OnDemand s' !! key = None /\
     OnDemand s' = OnDemand s /\
     global_usage s' second = global_usage s second + size) /\
    (forall e,
        ValidatePayment m blobHeader onDemandPayment s1 = Err e ->
        result = Err (Errorf_w "invalid on-demand payment: %w" e) /\
        s' = s1 /\
        OnDemand s' !! key = Some size /\
        global_usage s' second = global_usage s second) /\
    (ValidatePayment m blobHeader onDemandPayment s1 = Ok tt ->
     global_usage s second + size <= GlobalBytesPerSecond m ->
     result = Ok tt /\
     OnDemand s' !! key = Some size /\
     global_usage s' second = global_usage s second + size) /\
    (OnDemand s' !! key = None <->
     ValidatePayment m blobHeader onDemandPayment s1 = Ok tt /\
     GlobalBytesPerSecond m < global_usage s second + size).
Proof.
  intros m now blobHeader onDemandPayment s s1 Hq Hadd. cbv zeta.
  destruct (AddOnDemandPayment_Ok_inv _ _ _ _ Hadd) as (Hfresh & Htable & Hglobal & _).
  assert (Hstored : OnDemand s1 !! (AccountID blobHeader, CumulativePayment blobHeader) =
                    Some (BlobSizeCharged m (DataLength blobHeader))).
  { rewrite Htable. apply lookup_insert_eq. }
  assert (Husage : global_usage s1 (uint64 now) = global_usage s (uint64 now)).
  { unfold global_usage. rewrite Hglobal. reflexivity. }
  rewrite (ServeOnDemandRequest_inserted _ _ _ _ _ _ Hq Hadd). cbv zeta.
  rewrite Husage.
  split; [exact Hfresh |]. split; [exact Hstored |].
  destruct (ValidatePayment m blobHeader onDemandPayment s1) as [[] | e | r] eqn:Hv.
  - destruct (Z.ltb_spec (GlobalBytesPerSecond m)
                (global_usage s (uint64 now) + BlobSizeCharged m (DataLength blobHeader)))
      as [Hover | Hfits]; cbn [fst snd].
    + assert (Hdel : delete (AccountID blobHeader, CumulativePayment blobHeader) (OnDemand s1)
                     = OnDemand s).
      { rewrite Htable. apply delete_insert_id, Hfresh. }
      rewrite OnDemand_RemoveOnDemandPayment, OnDemand_UpdateGlobalBin, Hdel.
      rewrite global_usage_RemoveOnDemandPayment, global_usage_UpdateGlobalBin, Husage.
      split; [| split; [| split]].
      * intros _ _. auto.
      * intros e [=].
      * intros _ Hle. lia.
      * split; [intros _; split; [reflexivity | exact Hover] | intros _; exact Hfresh].
    + rewrite OnDemand_UpdateGlobalBin, global_usage_UpdateGlobalBin, Husage, Hstored.
      split; [| split; [| split]].
      * intros _ Hlt. lia.
      * intros e [=].
      * intros _ _. auto.
      * split; [discriminate | intros [_ Hlt]; lia].
  - cbn [fst snd]. rewrite Hstored, Husage. split; [| split; [| split]].
    + intros [=].
    + intros e' [= <-]. auto.
    + intros [=].
    + split; [discriminate | intros [[=] _]].
  - cbn [fst snd]. rewrite Hstored. split; [| split; [| split]].
    + intros [=].
    + intros e' [=].
    + intros [=].
    + split; [discriminate | intros [[=] _]].
Qed.

(** A network that admits 1000 bytes per second: a first request of 2048
    bytes with a valid payment exceeds the global rate, is rejected, and
    its record is deleted again. *)
Lemma ServeOnDemandRequest_compensating_delete_witness :
  let m := mkConfig 1000 100 1024 60 in
  let blobHeader := example_payment 2048 200 in
  let outcome := ServeOnDemandRequest m 600 blobHeader example_deposit empty_store in
  fst outcome = Err (Errorf "failed global rate limiting") /\
  OnDemand (snd outcome) !! ("bob", 200) = None /\
  global_usage (snd outcome) 600 = 2048.
Proof.
  cbv zeta.
  pose proof (ServeOnDemandRequest_compensating_delete (mkConfig 1000 100 1024 60) 600
                (example_payment 2048 200) example_deposit empty_store
                (snd (AddOnDemandPayment empty_store (example_payment 2048 200) 2048))
                eq_refl eq_refl) as H.
  cbv zeta in H.
  destruct H as (_ & _ & Hlimited & _).
  destruct Hlimited as (Hres & Hgone & _ & Husage); [reflexivity | reflexivity |].
  split; [exact Hres |]. split; [exact Hgone | exact Husage].
Defined.

(** ** Request validator *)

Lemma IncrementBinUsage_other_tables m blobHeader reservation s :
  GlobalBins (snd (IncrementBinUsage m blobHeader reservation s)) = GlobalBins s /\
  OnDemand (snd (IncrementBinUsage m blobHeader reservation s)) = OnDemand s.
Proof.
  unfold IncrementBinUsage, UpdateReservationBin. simpl.
  repeat match goal with
         | |- context [if ?c then _ else _] => destruct c
         | |- context [match GetBinIndex ?t ?w with _ => _ end] => destruct (GetBinIndex t w)
         end; simpl; auto.
Qed.

Lemma ServeReservationRequest_other_tables m now blobHeader reservation s :
  GlobalBins (snd (ServeReservationRequest m now blobHeader reservation s)) = GlobalBins s /\
  OnDemand (snd (ServeReservationRequest m now blobHeader reservation s)) = OnDemand s.
Proof.
  unfold ServeReservationRequest.
  destruct (ValidateQuorum _ _); simpl; auto.
  destruct (ValidateBinIndex _ _ _ _) as [[|] | |]; simpl; auto.
  pose proof (IncrementBinUsage_other_tables m blobHeader reservation s) as H.
  destruct (IncrementBinUsage m blobHeader reservation s) as [[[] | e | r] s1]; exact H.
Qed.

Lemma ServeOnDemandRequest_reservation_table m now blobHeader onDemandPayment s :
  ReservationBins (snd (ServeOnDemandRequest m now blobHeader onDemandPayment s)) =
  ReservationBins s.
Proof.
  unfold ServeOnDemandRequest, AddOnDemandPayment, IncrementGlobalBinUsage, UpdateGlobalBin.
  destruct (ValidateQuorum _ _); simpl; auto.
  destruct (OnDemand s !! _); simpl; auto.
  destruct (ValidatePayment _ _ _ _); simpl; auto.
  destruct (_ <? _); reflexivity.
Qed.

(** C6.  Once the block number has been read, [MeterRequest] takes the
    reservation path exactly when the cumulative payment of the request is
    0: it reads the active reservation of the account and hands the request
    to [ServeReservationRequest], and the on-demand tables of the store stay
    as they are.  Otherwise it takes the on-demand path: it reads the
    deposit and hands the request to [ServeOnDemandRequest], and the
    reservation bins stay as they are.  On either path the request is
    accepted exactly when the accountant accepts it, a rejection of the
    accountant is returned wrapped in the path's message, and the store
    after the request is the accountant's. *)
Theorem MeterRequest_routes_on_cumulative_payment :
  forall (m : Config) (chain : OnchainPaymentState) (now : Z) (header : BlobHeader)
         (s : OffchainStore) (blockNumber : Z),
    GetCurrentBlockNumber chain = Ok blockNumber ->
    let account := AccountID header in
    let result := fst (MeterRequest m chain now header s) in
    let s' := snd (MeterRequest m chain now header s) in
    (CumulativePayment header = 0 ->
     (forall reservation,
         GetActiveReservationByAccount chain blockNumber account = Ok reservation ->
         let served := ServeReservationRequest m now header reservation s in
         s' = snd served /\
         (result = Ok tt <-> fst served = Ok tt) /\
         (forall e, fst served = Err e -> result = Err (Errorf_w "invalid reservation: %w" e)) /\
         (forall r, fst served = Panic r -> result = Panic r)) /\
     (forall e,
         GetActiveReservationByAccount chain blockNumber account = Err e ->
         result = Err (Errorf_w "failed to get active reservation by account: %w" e) /\
         s' = s) /\
     OnDemand s' = OnDemand s /\ GlobalBins s' = GlobalBins s) /\
    (CumulativePayment header <> 0 ->
     (forall onDemandPayment,
         GetOnDemandPaymentByAccount chain blockNumber account = Ok onDemandPayment ->
         let served := ServeOnDemandRequest m now header onDemandPayment s in
         s' = snd served /\
         (result = Ok tt <-> fst served = Ok tt) /\
         (forall e, fst served = Err e -> result = Err (Errorf_w "invalid on-demand request: %w" e)) /\
         (forall r, fst served = Panic r -> result = Panic r)) /\
     (forall e,
         GetOnDemandPaymentByAccount chain blockNumber account = Err e ->
         result = Err (Errorf_w "failed to get on-demand payment by account: %w" e) /\
         s' = s) /\
     ReservationBins s' = ReservationBins s).
Proof.
  intros m chain now header s blockNumber Hblock. cbv zeta.
  unfold MeterRequest. rewrite Hblock.
  split.
  - intros Hzero. rewrite Hzero. simpl (0 =? 0). cbv iota.
    destruct (GetActiveReservationByAccount chain blockNumber (AccountID header))
      as [r | e | p] eqn:Hres.
    + pose proof (ServeReservationRequest_other_tables m now header r s) as [Hg Ho].
      split; [| split; [intros e' [=] |]].
      * intros r' [= <-]. cbv zeta.
        destruct (ServeReservationRequest m now header r s) as [[[] | e | p] s1];
          cbn [fst snd]; split_accountant_outcome.
      * destruct (ServeReservationRequest m now header r s) as [[[] | e | p] s1];
          cbn [fst snd] in *; auto.
    + cbn [fst snd]. split; [intros r [=] |]. split; [| auto].
      intros e' [= <-]. auto.
    + cbn [fst snd]. split; [intros r [=] |]. split; [| auto]. intros e' [=].
  - intros Hnonzero. apply Z.eqb_neq in Hnonzero. rewrite Hnonzero.
    destruct (GetOnDemandPaymentByAccount chain blockNumber (AccountID header))
      as [d | e | p] eqn:Hdep.
    + pose proof (ServeOnDemandRequest_reservation_table m now header d s) as Hr.
      split; [| split; [intros e' [=] |]].
      * intros d' [= <-]. cbv zeta.
        destruct (ServeOnDemandRequest m now header d s) as [[[] | e | p] s1];
          cbn [fst snd]; split_accountant_outcome.
      * destruct (ServeOnDemandRequest m now header d s) as [[[] | e | p] s1];
          cbn [fst snd] in *; auto.
    + cbn [fst snd]. split; [intros d [=] |]. split; [| auto].
      intros e' [= <-]. auto.
    + cbn [fst snd]. split; [intros d [=] |]. split; [| auto]. intros e' [=].
Qed.

(** The first and the fourth boundary scenario of the specification: a
    request with cumulative payment 0 fills a reservation bin, a request
    with cumulative payment 200 adds an on-demand record. *)
Lemma MeterRequest_routes_on_cumulative_payment_witness :
  let reserved := MeterRequest example_config example_chain 600
                    (example_request 3000) empty_store in
  let paid := MeterRequest example_config example_chain 600
                (example_payment 2048 200) empty_store in
  (fst reserved = Ok tt /\ OnDemand (snd reserved) = ∅ /\
   bin_usage (snd reserved) "alice" 10 = 3000) /\
  (fst paid = Ok tt /\ ReservationBins (snd paid) = ∅ /\
   OnDemand (snd paid) !! ("bob", 200) = Some 2048).
Proof.
  cbv zeta. split.
  - destruct (MeterRequest_routes_on_cumulative_payment example_config example_chain 600
                (example_request 3000) empty_store 1 eq_refl) as [Hres _].
    destruct (Hres eq_refl) as (_ & _ & Htable & _).
    split; [reflexivity |]. split; [exact Htable | reflexivity].
  - destruct (MeterRequest_routes_on_cumulative_payment example_config example_chain 600
                (example_payment 2048 200) empty_store 1 eq_refl) as [_ Hpay].
    destruct (Hpay ltac:(discriminate)) as (_ & _ & Htable).
    split; [reflexivity |]. split; [exact Htable | reflexivity].
Defined.

(** ** The bin index of on-demand requests *)

(** C9 (as stated, refuted).  At second 600 an on-demand request with a
    valid payment names bin 0, which is neither second 600 nor second 599.
    [ValidateGlobalBinIndex] would reject it, but the meterer does not call
    it and accepts the request. *)
Lemma on_demand_accepts_stale_bin_index :
  let header := example_payment 2048 200 in
  BinIndex header = 0 /\
  ~ current_or_previous_second 600 header /\
  ValidateGlobalBinIndex 600 header =
    Err (Errorf "invalid bin index for on-demand request") /\
  fst (MeterRequest example_config example_chain 600 header empty_store) = Ok tt /\
  fst (ServeOnDemandRequest example_config 600 header example_deposit empty_store) = Ok tt.
Proof.
  cbv zeta. split; [reflexivity |]. split.
  - unfold current_or_previous_second. vm_compute. intros [H | H]; discriminate.
  - repeat split; reflexivity.
Qed.

(** C9 (amended).  [ValidateGlobalBinIndex] accepts exactly when the bin
    index of the request is the current second or the previous one (both
    as 32-bit values) and then returns the current second; it rejects any
    other index.  Request processing does not use it: the outcome of
    [ServeOnDemandRequest], and of [MeterRequest] on the on-demand path,
    with the store it leaves, is the same for every bin index the request
    may carry. *)
Theorem on_demand_bin_index_is_not_checked :
  forall (m : Config) (now : Z) (blobHeader : BlobHeader),
    (forall idx,
        ValidateGlobalBinIndex now blobHeader = Ok idx <->
        idx = uint32 now /\ current_or_previous_second now blobHeader) /\
    (~ current_or_previous_second now blobHeader <->
     ValidateGlobalBinIndex now blobHeader =
       Err (Errorf "invalid bin index for on-demand request")) /\
    (forall onDemandPayment s binIndex,
        ServeOnDemandRequest m now (with_BinIndex blobHeader binIndex) onDemandPayment s =
        ServeOnDemandRequest m now blobHeader onDemandPayment s) /\
    (forall chain s binIndex,
        CumulativePayment blobHeader <> 0 ->
        MeterRequest m chain now (with_BinIndex blobHeader binIndex) s =
        MeterRequest m chain now blobHeader s).
Proof.
  intros m now blobHeader.
  assert (Hcases :
            (current_or_previous_second now blobHeader /\
             ValidateGlobalBinIndex now blobHeader = Ok (uint32 now)) \/
            (~ current_or_previous_second now blobHeader /\
             ValidateGlobalBinIndex now blobHeader =
               Err (Errorf "invalid bin index for on-demand request"))).
  { unfold ValidateGlobalBinIndex, current_or_previous_second.
    destruct (Z.eqb_spec (BinIndex blobHeader) (uint32 now)) as [He | Hne]; simpl.
    - left. auto.
    - destruct (Z.eqb_spec (BinIndex blobHeader) (uint32 (uint32 now - 1))) as [He' | Hne'];
        simpl.
      + left. auto.
      + right. split; [tauto | reflexivity]. }
  split; [| split; [| split]].
  - intros idx. destruct Hcases as [[Hin Hok] | [Hout Herr]].
    + rewrite Hok. split; [intros [= <-]; auto | intros [-> _]; reflexivity].
    + rewrite Herr. split; [discriminate | intros [_ Hin]; contradiction].
  - destruct Hcases as [[Hin Hok] | [Hout Herr]].
    + rewrite Hok. split; [intros Hout; contradiction | discriminate].
    + rewrite Herr. split; [reflexivity | intros _; exact Hout].
  - intros onDemandPayment s binIndex. reflexivity.
  - intros chain s binIndex Hnonzero.
    unfold MeterRequest. cbn [CumulativePayment AccountID with_BinIndex].
    apply Z.eqb_neq in Hnonzero. rewrite Hnonzero.
    reflexivity.
Qed.

(** * Further properties of the metering code *)

(** ** Bin indices and the window check *)

Lemma ValidateBinIndex_nonzero m now blobHeader reservation :
  ReservationWindow m <> 0 ->
  ValidateBinIndex m now blobHeader reservation =
  Ok (((BinIndex blobHeader =? uint32 (uint64 now) / ReservationWindow m)
       || (BinIndex blobHeader =? uint32 (uint32 (uint64 now) / ReservationWindow m - 1)))
      && (uint32 (StartTimestamp reservation) / ReservationWindow m <=? BinIndex blobHeader)
      && (BinIndex blobHeader <=? uint32 (EndTimestamp reservation) / ReservationWindow m)).
Proof.
  intros Hw. unfold ValidateBinIndex. rewrite !GetBinIndex_nonzero by exact Hw.
  destruct (BinIndex blobHeader =? uint32 (uint64 now) / ReservationWindow m); simpl.
  - rewrite Z.ltb_antisym.
    destruct (uint32 (StartTimestamp reservation) / ReservationWindow m <=? BinIndex blobHeader);
      simpl; [| reflexivity].
    rewrite Z.ltb_antisym.
    destruct (BinIndex blobHeader <=? uint32 (EndTimestamp reservation) / ReservationWindow m);
      reflexivity.
  - destruct (BinIndex blobHeader =? uint32 (uint32 (uint64 now) / ReservationWindow m - 1));
      simpl; [| reflexivity].
    rewrite Z.ltb_antisym.
    destruct (uint32 (StartTimestamp reservation) / ReservationWindow m <=? BinIndex blobHeader);
      simpl; [| reflexivity].
    rewrite Z.ltb_antisym.
    destruct (BinIndex blobHeader <=? uint32 (EndTimestamp reservation) / ReservationWindow m);
      reflexivity.
Qed.

Lemma uint32_shift t k : uint32 (t + k * 4294967296) = uint32 t.
Proof. unfold uint32. apply Z.mod_add. lia. Qed.

(** X1.  [GetBinIndex] sees only the low 32 bits of the timestamp:
    timestamps that differ by a multiple of 2^32 seconds get the same bin
    index.  The index [i] it returns is the one whose window
    [[i * w, (i + 1) * w)] holds the truncated timestamp, and it is at most
    [(2^32 - 1) / w]; on timestamps below 2^32 the index grows with the
    timestamp. *)
Theorem GetBinIndex_window_of_truncated_timestamp :
  forall (w t1 t2 k : Z),
    0 < w ->
    GetBinIndex (t1 + k * 4294967296) w = GetBinIndex t1 w /\
    (exists i,
        GetBinIndex t1 w = Ok i /\
        i * w <= uint32 t1 < (i + 1) * w /\
        0 <= i <= 4294967295 / w) /\
    (0 <= t1 <= t2 -> t2 < 4294967296 ->
     exists i1 i2,
       GetBinIndex t1 w = Ok i1 /\ GetBinIndex t2 w = Ok i2 /\ i1 <= i2).
Proof.
  intros w t1 t2 k Hw.
  rewrite !GetBinIndex_nonzero by lia.
  split; [rewrite uint32_shift; reflexivity |].
  split.
  - exists (uint32 t1 / w). split; [reflexivity |].
    pose proof (uint32_range t1) as Hr. unfold is_uint32 in Hr.
    pose proof (Z.div_mod (uint32 t1) w ltac:(lia)) as Hdm.
    pose proof (Z.mod_pos_bound (uint32 t1) w Hw) as Hm.
    split; [nia |].
    split; [apply Z.div_pos; lia | apply Z.div_le_mono; lia].
  - intros H12 H2. exists (uint32 t1 / w), (uint32 t2 / w).
    split; [reflexivity |]. split; [reflexivity |].
    rewrite !uint32_small by (unfold is_uint32; lia).
    apply Z.div_le_mono; lia.
Qed.

Lemma GetBinIndex_window_of_truncated_timestamp_witness :
  GetBinIndex (600 + 1 * 4294967296) 60 = GetBinIndex 600 60.
Proof.
  apply (GetBinIndex_window_of_truncated_timestamp 60 600 700 1). lia.
Defined.

(** The first half of the window check on a clock below 2^32: the bin
    index is the current or the previous one exactly during the two
    windows that start at [bin * w]. *)
Lemma current_or_previous_bin now w bin :
  0 < w -> 0 <= now < 4294967296 -> 0 <= bin < 4294967295 ->
  ((bin =? now / w) || (bin =? uint32 (now / w - 1))) = true <->
  bin * w <= now < (bin + 2) * w.
Proof.
  intros Hw Hnow Hbin.
  pose proof (Z.div_mod now w ltac:(lia)) as Hdm.
  pose proof (Z.mod_pos_bound now w Hw) as Hm.
  assert (Hq : 0 <= now / w <= now).
  { split; [apply Z.div_pos; lia |]. apply Z.div_le_upper_bound; nia. }
  rewrite orb_true_iff, !Z.eqb_eq.
  destruct (Z.eq_dec (now / w) 0) as [Hz | Hnz].
  - rewrite Hz. change (uint32 (0 - 1)) with 4294967295.
    split.
    + intros [-> | ->]; [nia | lia].
    + intros Hint. left. nia.
  - rewrite (uint32_small (now / w - 1)) by (unfold is_uint32; lia).
    split.
    + intros [-> | ->]; nia.
    + intros Hint. nia.
Qed.

(** X2.  On a clock below 2^32 and for a bin index below 2^32 - 1, the
    window check accepts a bin index exactly during the two windows that
    start at [bin_index * window], and only if the index lies between the
    indices of the reservation's (truncated) start and end timestamps. *)
Theorem ValidateBinIndex_accepts_for_two_windows :
  forall (m : Config) (now : Z) (blobHeader : BlobHeader) (reservation : ActiveReservation),
    0 < ReservationWindow m ->
    0 <= now < 4294967296 ->
    0 <= BinIndex blobHeader < 4294967295 ->
    let w := ReservationWindow m in
    let bin := BinIndex blobHeader in
    let accepted :=
      bin * w <= now < (bin + 2) * w /\
      uint32 (StartTimestamp reservation) / w <= bin <= uint32 (EndTimestamp reservation) / w in
    (ValidateBinIndex m now blobHeader reservation = Ok true <-> accepted) /\
    (ValidateBinIndex m now blobHeader reservation = Ok false <-> ~ accepted).
Proof.
  intros m now blobHeader reservation Hw Hnow Hbin. cbv zeta.
  rewrite ValidateBinIndex_nonzero by lia.
  rewrite (uint64_small now) by (unfold is_uint64; lia).
  rewrite (uint32_small now) by (unfold is_uint32; lia).
  pose proof (current_or_previous_bin now (ReservationWindow m) (BinIndex blobHeader)
                Hw Hnow Hbin) as Hcur.
  match goal with
  | |- (Ok ?b = Ok true <-> ?P) /\ _ =>
      assert (Hacc : b = true <-> P);
      [| destruct Hacc as [Hacc1 Hacc2]; destruct b; split; split;
         try discriminate; try reflexivity;
         solve [ intros _; apply Hacc1; reflexivity
               | intros H'; exfalso; apply H'; apply Hacc1; reflexivity
               | intros H'; specialize (Hacc2 H'); discriminate
               | intros _ H'; specialize (Hacc2 H'); discriminate
               | intros H'; exfalso; apply H'; intros H''; specialize (Hacc2 H''); discriminate ]]
  end.
  rewrite !andb_true_iff, !Z.leb_le, Hcur. tauto.
Qed.

Lemma ValidateBinIndex_accepts_for_two_windows_witness :
  ValidateBinIndex example_config 719 (example_request 3000) example_reservation = Ok true /\
  ValidateBinIndex example_config 720 (example_request 3000) example_reservation = Ok false.
Proof.
  split.
  - apply (ValidateBinIndex_accepts_for_two_windows example_config 719
             (example_request 3000) example_reservation); cbn; try lia.
    vm_compute. repeat split; discriminate.
  - apply (ValidateBinIndex_accepts_for_two_windows example_config 720
             (example_request 3000) example_reservation); cbn; lia.
Defined.

(** X3.  With windows of at least two seconds, the two 32-bit wraparounds
    of the reservation path cannot occur for a request that passed the
    window check: its bin index is the current index or the current index
    minus one as integers, and [bin_index + 2], the index a spill goes to,
    is below 2^32. *)
Theorem window_check_excludes_wraparound :
  forall (m : Config) (now : Z) (blobHeader : BlobHeader) (reservation : ActiveReservation),
    2 <= ReservationWindow m ->
    ValidateBinIndex m now blobHeader reservation = Ok true ->
    let current := uint32 (uint64 now) / ReservationWindow m in
    let bin := BinIndex blobHeader in
    (bin = current \/ (1 <= current /\ bin = current - 1)) /\
    0 <= bin <= 2147483647 /\
    uint32 (bin + 2) = bin + 2 /\
    uint32 (StartTimestamp reservation) / ReservationWindow m <= bin
      <= uint32 (EndTimestamp reservation) / ReservationWindow m.
Proof.
  intros m now blobHeader reservation Hw Hvalid. cbv zeta.
  rewrite ValidateBinIndex_nonzero in Hvalid by lia.
  injection Hvalid as Hvalid.
  apply andb_true_iff in Hvalid as [Hvalid Hend].
  apply andb_true_iff in Hvalid as [Hcur Hstart].
  apply Z.leb_le in Hstart, Hend.
  pose proof (uint32_range (StartTimestamp reservation)) as Hs.
  pose proof (uint32_range (EndTimestamp reservation)) as He.
  pose proof (uint32_range (uint64 now)) as Hn.
  unfold is_uint32 in *.
  assert (Hsi : 0 <= uint32 (StartTimestamp reservation) / ReservationWindow m)
    by (apply Z.div_pos; lia).
  assert (Hei : uint32 (EndTimestamp reservation) / ReservationWindow m <= 2147483647).
  { apply Z.lt_succ_r. apply Z.div_lt_upper_bound; lia. }
  assert (Hci : 0 <= uint32 (uint64 now) / ReservationWindow m) by (apply Z.div_pos; lia).
  split; [| split; [lia | split; [apply uint32_small; unfold is_uint32; lia | lia]]].
  apply orb_true_iff in Hcur as [Hcur | Hcur]; apply Z.eqb_eq in Hcur; [left; exact Hcur |].
  destruct (Z.eq_dec (uint32 (uint64 now) / ReservationWindow m) 0) as [Hz | Hnz].
  - rewrite Hz in Hcur. change (uint32 (0 - 1)) with 4294967295 in Hcur. lia.
  - right. split; [lia |]. rewrite Hcur. apply uint32_small. unfold is_uint32.
    assert (uint32 (uint64 now) / ReservationWindow m <= uint32 (uint64 now))
      by (apply Z.div_le_upper_bound; nia).
    lia.
Qed.

Lemma window_check_excludes_wraparound_witness :
  uint32 (BinIndex (example_request 3000) + 2) = BinIndex (example_request 3000) + 2.
Proof.
  apply (window_check_excludes_wraparound example_config 600 (example_request 3000)
           example_reservation); [cbn; lia | reflexivity].
Defined.

(** ** What one request does to the store *)

Lemma IncrementBinUsage_other_account m blobHeader reservation s a b :
  a <> AccountID blobHeader ->
  bin_usage (snd (IncrementBinUsage m blobHeader reservation s)) a b = bin_usage s a b.
Proof.
  intros Hne. unfold IncrementBinUsage.
  rewrite (surjective_pairing (UpdateReservationBin s _ _ _)).
  rewrite UpdateReservationBin_result.
  repeat match goal with
         | |- context [if ?c then _ else _] => destruct c
         | |- context [match GetBinIndex ?t ?w with _ => _ end] => destruct (GetBinIndex t w)
         | |- context [let '(_, _) := ?u in _] => rewrite (surjective_pairing u)
         end; cbn [fst snd];
    rewrite ?bin_usage_UpdateReservationBin;
    repeat case_decide; congruence.
Qed.

Lemma IncrementBinUsage_monotone m blobHeader reservation s a b :
  0 <= MinChargeableSize m ->
  bin_usage s a b <= bin_usage (snd (IncrementBinUsage m blobHeader reservation s)) a b.
Proof.
  intros Hmin. unfold IncrementBinUsage.
  rewrite (surjective_pairing (UpdateReservationBin s _ _ _)).
  rewrite UpdateReservationBin_result.
  set (size := Z.max (DataLength blobHeader) (MinChargeableSize m)).
  assert (Hsize : 0 <= size) by (subst size; lia).
  pose proof (uint64_range (bin_usage s (AccountID blobHeader) (BinIndex blobHeader) + size
                            - DataRate reservation)) as Hspill.
  unfold is_uint64 in Hspill.
  repeat match goal with
         | |- context [if ?c then _ else _] => destruct c
         | |- context [match GetBinIndex ?t ?w with _ => _ end] => destruct (GetBinIndex t w)
         | |- context [let '(_, _) := ?u in _] => rewrite (surjective_pairing u)
         end; cbn [fst snd];
    rewrite ?bin_usage_UpdateReservationBin;
    repeat case_decide; simplify_eq; try lia.
  match goal with H : BinIndex blobHeader = uint32 _ |- _ => rewrite <- H end. lia.
Qed.

Lemma IncrementBinUsage_charges m blobHeader reservation s :
  is_uint32 (BinIndex blobHeader) ->
  bin_usage (snd (IncrementBinUsage m blobHeader reservation s))
    (AccountID blobHeader) (BinIndex blobHeader) =
  bin_usage s (AccountID blobHeader) (BinIndex blobHeader)
  + Z.max (DataLength blobHeader) (MinChargeableSize m).
Proof.
  intros Hbin. pose proof (uint32_plus_two_neq _ Hbin) as Hne.
  unfold IncrementBinUsage.
  rewrite (surjective_pairing (UpdateReservationBin s _ _ _)).
  rewrite UpdateReservationBin_result.
  repeat match goal with
         | |- context [if ?c then _ else _] => destruct c
         | |- context [match GetBinIndex ?t ?w with _ => _ end] => destruct (GetBinIndex t w)
         | |- context [let '(_, _) := ?u in _] => rewrite (surjective_pairing u)
         end; cbn [fst snd];
    rewrite ?bin_usage_UpdateReservationBin;
    repeat case_decide; congruence.
Qed.

Lemma ServeReservationRequest_store m now blobHeader reservation s :
  snd (ServeReservationRequest m now blobHeader reservation s) =
  match ValidateQuorum blobHeader (ReservationQuorumNumbers reservation),
        ValidateBinIndex m now blobHeader reservation with
  | Ok _, Ok true => snd (IncrementBinUsage m blobHeader reservation s)
  | _, _ => s
  end.
Proof.
  unfold ServeReservationRequest.
  destruct (ValidateQuorum _ _); try reflexivity.
  destruct (ValidateBinIndex _ _ _ _) as [[|] | |]; try reflexivity.
  destruct (IncrementBinUsage m blobHeader reservation s) as [[[] | e | r] s1]; reflexivity.
Qed.

Lemma ServeReservationRequest_store_cases m now blobHeader reservation s :
  snd (ServeReservationRequest m now blobHeader reservation s) = s \/
  snd (ServeReservationRequest m now blobHeader reservation s) =
  snd (IncrementBinUsage m blobHeader reservation s).
Proof.
  rewrite ServeReservationRequest_store.
  destruct (ValidateQuorum _ _); auto.
  destruct (ValidateBinIndex _ _ _ _) as [[|] | |]; auto.
Qed.

(** The store after [MeterRequest] is the store before, or the store an
    accountant left. *)
Lemma MeterRequest_store_cases m chain now header s :
  snd (MeterRequest m chain now header s) = s \/
  (CumulativePayment header = 0 /\
   exists reservation,
     ActiveReservations chain !! AccountID header = Some reservation /\
     MeterRequest m chain now header s =
     (match fst (ServeReservationRequest m now header reservation s) with
      | Ok _ => Ok tt
      | Err e => Err (Errorf_w "invalid reservation: %w" e)
      | Panic r => Panic r
      end,
      snd (ServeReservationRequest m now header reservation s))) \/
  (CumulativePayment header <> 0 /\
   exists onDemandPayment,
     OnDemandPayments chain !! AccountID header = Some onDemandPayment /\
     MeterRequest m chain now header s =
     (match fst (ServeOnDemandRequest m now header onDemandPayment s) with
      | Ok _ => Ok tt
      | Err e => Err (Errorf_w "invalid on-demand request: %w" e)
      | Panic r => Panic r
      end,
      snd (ServeOnDemandRequest m now header onDemandPayment s))).
Proof.
  unfold MeterRequest, GetCurrentBlockNumber, GetActiveReservationByAccount,
    GetOnDemandPaymentByAccount.
  destruct (CurrentBlockNumber chain); [| left; reflexivity].
  destruct (Z.eqb_spec (CumulativePayment header) 0) as [Hz | Hnz].
  - destruct (ActiveReservations chain !! AccountID header) as [r |]; [| left; reflexivity].
    right. left. split; [exact Hz |]. exists r. split; [reflexivity |].
    destruct (ServeReservationRequest m now header r s) as [[[] | e | p] s1]; reflexivity.
  - destruct (OnDemandPayments chain !! AccountID header) as [d |]; [| left; reflexivity].
    right. right. split; [exact Hnz |]. exists d. split; [reflexivity |].
    destruct (ServeOnDemandRequest m now header d s) as [[[] | e | p] s1]; reflexivity.
Qed.

(** What the on-demand accountant can do to the store. *)
Lemma ServeOnDemandRequest_store m now blobHeader onDemandPayment s :
  let s' := snd (ServeOnDemandRequest m now blobHeader onDemandPayment s) in
  let key := (AccountID blobHeader, CumulativePayment blobHeader) in
  ReservationBins s' = ReservationBins s /\
  (forall k, k <> key -> OnDemand s' !! k = OnDemand s !! k) /\
  (forall v, OnDemand s !! key = Some v -> s' = s) /\
  (forall t,
      global_usage s' t = global_usage s t \/
      (t = uint64 now /\
       global_usage s' t = global_usage s t + BlobSizeCharged m (DataLength blobHeader))).
Proof.
  cbv zeta.
  split; [apply ServeOnDemandRequest_reservation_table |].
  unfold ServeOnDemandRequest, AddOnDemandPayment.
  destruct (ValidateQuorum blobHeader OnDemandQuorumNumbers);
    try (cbn [fst snd]; repeat split; auto; fail).
  destruct (OnDemand s !! (AccountID blobHeader, CumulativePayment blobHeader)) eqn:Hkey;
    [cbn [fst snd]; repeat split; auto |].
  set (s1 := {| ReservationBins := ReservationBins s; GlobalBins := GlobalBins s;
                OnDemand := <[(AccountID blobHeader, CumulativePayment blobHeader) :=
                               BlobSizeCharged m (DataLength blobHeader)]> (OnDemand s) |}).
  assert (Hother : forall k, k <> (AccountID blobHeader, CumulativePayment blobHeader) ->
                             OnDemand s1 !! k = OnDemand s !! k).
  { intros k Hk. subst s1. simpl. apply lookup_insert_ne. congruence. }
  destruct (ValidatePayment m blobHeader onDemandPayment s1);
    try (cbn [fst snd]; split; [exact Hother |]; split; [intros v [=] | intros t; left; reflexivity]).
  rewrite IncrementGlobalBinUsage_unfold.
  assert (Hglobal : forall t,
             global_usage (snd (UpdateGlobalBin s1 (uint64 now)
                                  (BlobSizeCharged m (DataLength blobHeader)))) t =
             global_usage s t \/
             (t = uint64 now /\
              global_usage (snd (UpdateGlobalBin s1 (uint64 now)
                                   (BlobSizeCharged m (DataLength blobHeader)))) t =
              global_usage s t + BlobSizeCharged m (DataLength blobHeader))).
  { intros t. unfold UpdateGlobalBin, global_usage. simpl.
    destruct (Z.eq_dec (uint64 now) t) as [<- | Hne].
    - right. rewrite lookup_insert_eq. auto.
    - left. rewrite lookup_insert_ne by exact Hne. reflexivity. }
  destruct (_ <? _); cbn [fst snd].
  - split; [| split; [intros v [=] | exact Hglobal]].
    intros k Hk. rewrite OnDemand_RemoveOnDemandPayment, OnDemand_UpdateGlobalBin.
    rewrite lookup_delete_ne by congruence. apply Hother, Hk.
  - split; [| split; [intros v [=] | exact Hglobal]].
    intros k Hk. rewrite OnDemand_UpdateGlobalBin. apply Hother, Hk.
Qed.

Lemma MeterRequest_bins_monotone m chain now header s a b :
  0 <= MinChargeableSize m ->
  bin_usage s a b <= bin_usage (snd (MeterRequest m chain now header s)) a b.
Proof.
  intros Hmin.
  destruct (MeterRequest_store_cases m chain now header s)
    as [-> | [(_ & r & _ & ->) | (_ & d & _ & ->)]]; cbn [snd]; [lia | |].
  - destruct (ServeReservationRequest_store_cases m now header r s) as [-> | ->]; [lia |].
    apply IncrementBinUsage_monotone, Hmin.
  - unfold bin_usage. rewrite ServeOnDemandRequest_reservation_table. lia.
Qed.

Lemma MeterRequest_global_monotone m chain now header s t :
  0 <= MinChargeableSize m ->
  global_usage s t <= global_usage (snd (MeterRequest m chain now header s)) t.
Proof.
  intros Hmin.
  destruct (MeterRequest_store_cases m chain now header s)
    as [-> | [(_ & r & _ & ->) | (_ & d & _ & ->)]]; cbn [snd]; [lia | |].
  - unfold global_usage.
    destruct (ServeReservationRequest_other_tables m now header r s) as [-> _]. lia.
  - destruct (ServeOnDemandRequest_store m now header d s) as (_ & _ & _ & Hg).
    destruct (Hg t) as [-> | [_ ->]]; [lia |]. unfold BlobSizeCharged. lia.
Qed.

Lemma MeterRequest_other_account_bins m chain now header s a b :
  a <> AccountID header ->
  bin_usage (snd (MeterRequest m chain now header s)) a b = bin_usage s a b.
Proof.
  intros Hne.
  destruct (MeterRequest_store_cases m chain now header s)
    as [-> | [(_ & r & _ & ->) | (_ & d & _ & ->)]]; cbn [snd]; [reflexivity | |].
  - destruct (ServeReservationRequest_store_cases m now header r s) as [-> | ->];
      [reflexivity |].
    apply IncrementBinUsage_other_account, Hne.
  - unfold bin_usage. rewrite ServeOnDemandRequest_reservation_table. reflexivity.
Qed.

Lemma MeterRequest_other_record m chain now header s k :
  k <> (AccountID header, CumulativePayment header) ->
  OnDemand (snd (MeterRequest m chain now header s)) !! k = OnDemand s !! k.
Proof.
  intros Hne.
  destruct (MeterRequest_store_cases m chain now header s)
    as [-> | [(_ & r & _ & ->) | (_ & d & _ & ->)]]; cbn [snd]; [reflexivity | |].
  - destruct (ServeReservationRequest_other_tables m now header r s) as [_ ->]. reflexivity.
  - destruct (ServeOnDemandRequest_store m now header d s) as (_ & Hk & _). apply Hk, Hne.
Qed.

(** X4.  A request never touches what the store holds for another
    account: the reservation counters and the payment records of every
    other account are the same after [MeterRequest], whatever the outcome.
    Of the requesting account, only the payment record keyed by the
    request's own cumulative payment can change. *)
Theorem MeterRequest_touches_only_its_account :
  forall (m : Config) (chain : OnchainPaymentState) (now : Z) (header : BlobHeader)
         (s : OffchainStore) (a : string),
    a <> AccountID header ->
    let s' := snd (MeterRequest m chain now header s) in
    (forall b, bin_usage s' a b = bin_usage s a b) /\
    (forall p, OnDemand s' !! (a, p) = OnDemand s !! (a, p)) /\
    (forall p, p <> CumulativePayment header ->
               OnDemand s' !! (AccountID header, p) = OnDemand s !! (AccountID header, p)).
Proof.
  intros m chain now header s a Hne. cbv zeta.
  split; [| split].
  - intros b. apply MeterRequest_other_account_bins, Hne.
  - intros p. apply MeterRequest_other_record. congruence.
  - intros p Hp. apply MeterRequest_other_record. congruence.
Qed.

Lemma MeterRequest_touches_only_its_account_witness :
  let s' := snd (MeterRequest example_config example_chain 600 (example_request 3000)
                   example_history) in
  OnDemand s' !! ("bob", 200) = OnDemand example_history !! ("bob", 200).
Proof.
  cbv zeta.
  destruct (MeterRequest_touches_only_its_account example_config example_chain 600
              (example_request 3000) example_history "bob") as (_ & Hrec & _).
  - discriminate.
  - apply Hrec.
Defined.

(** X5.  No request lowers a counter: after [MeterRequest], whatever the
    outcome, every reservation bin counter and every global per-second
    counter is at least what it was before.  The only thing a request ever
    takes back is its own payment record. *)
Theorem MeterRequest_never_lowers_a_counter :
  forall (m : Config) (chain : OnchainPaymentState) (now : Z) (header : BlobHeader)
         (s : OffchainStore),
    0 <= MinChargeableSize m ->
    let s' := snd (MeterRequest m chain now header s) in
    (forall a b, bin_usage s a b <= bin_usage s' a b) /\
    (forall t, global_usage s t <= global_usage s' t) /\
    (forall k v, OnDemand s !! k = Some v -> OnDemand s' !! k = Some v).
Proof.
  intros m chain now header s Hmin. cbv zeta.
  split; [| split].
  - intros a b. apply MeterRequest_bins_monotone, Hmin.
  - intros t. apply MeterRequest_global_monotone, Hmin.
  - intros k v Hk.
    destruct (decide (k = (AccountID header, CumulativePayment header))) as [-> | Hne].
    + destruct (MeterRequest_store_cases m chain now header s)
        as [-> | [(_ & r & _ & ->) | (_ & d & _ & ->)]]; cbn [snd]; [exact Hk | |].
      * destruct (ServeReservationRequest_other_tables m now header r s) as [_ ->]. exact Hk.
      * destruct (ServeOnDemandRequest_store m now header d s) as (_ & _ & Hsame & _).
        rewrite (Hsame v Hk). exact Hk.
    + rewrite MeterRequest_other_record by exact Hne. exact Hk.
Qed.

Lemma MeterRequest_never_lowers_a_counter_witness :
  let s' := snd (MeterRequest example_config example_chain 600 (example_payment 1024 250)
                   example_history) in
  global_usage example_history 600 <= global_usage s' 600 /\
  OnDemand s' !! ("bob", 200) = Some 2048.
Proof.
  cbv zeta.
  destruct (MeterRequest_never_lowers_a_counter example_config example_chain 600
              (example_payment 1024 250) example_history) as (_ & Hg & Hrec).
  - cbn. lia.
  - split; [apply Hg | apply Hrec; reflexivity].
Defined.

(** ** Reservation path: guards, charging and the rate limit *)

Lemma ValidateBinIndex_true_range m now blobHeader reservation :
  0 < ReservationWindow m ->
  ValidateBinIndex m now blobHeader reservation = Ok true ->
  is_uint32 (BinIndex blobHeader).
Proof.
  intros Hw Hvalid. rewrite ValidateBinIndex_nonzero in Hvalid by lia.
  injection Hvalid as Hvalid.
  apply andb_true_iff in Hvalid as [Hvalid Hend].
  apply andb_true_iff in Hvalid as [_ Hstart].
  apply Z.leb_le in Hstart, Hend.
  pose proof (uint32_range (StartTimestamp reservation)) as Hs.
  pose proof (uint32_range (EndTimestamp reservation)) as He.
  unfold is_uint32 in *.
  assert (0 <= uint32 (StartTimestamp reservation) / ReservationWindow m)
    by (apply Z.div_pos; lia).
  assert (uint32 (EndTimestamp reservation) / ReservationWindow m
          <= uint32 (EndTimestamp reservation))
    by (apply Z.div_le_upper_bound; nia).
  lia.
Qed.

(** X6.  A reservation request is charged exactly when it passes the two
    guards.  If the quorum check or the window check fails, the request is
    rejected and the store is left as it was.  If both pass, the counter of
    the request's bin takes [max(data_length, min_chargeable_size)] whether
    the accountant then accepts the request or rejects it. *)
Theorem ServeReservationRequest_charges_iff_guards_pass :
  forall (m : Config) (now : Z) (blobHeader : BlobHeader) (reservation : ActiveReservation)
         (s : OffchainStore),
    Config_wf m ->
    let outcome := ServeReservationRequest m now blobHeader reservation s in
    let guards :=
      ValidateQuorum blobHeader (ReservationQuorumNumbers reservation) = Ok tt /\
      ValidateBinIndex m now blobHeader reservation = Ok true in
    (guards ->
     bin_usage (snd outcome) (AccountID blobHeader) (BinIndex blobHeader) =
     bin_usage s (AccountID blobHeader) (BinIndex blobHeader)
     + Z.max (DataLength blobHeader) (MinChargeableSize m)) /\
    (~ guards -> snd outcome = s /\ is_ok (fst outcome) = false).
Proof.
  intros m now blobHeader reservation s Hm. cbv zeta. split.
  - intros [Hq Hb]. rewrite ServeReservationRequest_store, Hq, Hb.
    apply IncrementBinUsage_charges.
    apply (ValidateBinIndex_true_range m now blobHeader reservation); [| exact Hb].
    pose proof (ValidateBinIndex_window_nonzero _ _ _ _ _ Hb).
    pose proof (wf_ReservationWindow _ Hm) as Hw. unfold is_uint32 in Hw. lia.
  - intros Hnot. rewrite ServeReservationRequest_store.
    unfold ServeReservationRequest.
    destruct (ValidateQuorum blobHeader (ReservationQuorumNumbers reservation))
      as [[] | e | p]; try (split; reflexivity).
    destruct (ValidateBinIndex m now blobHeader reservation) as [[|] | e | p];
      try (split; reflexivity).
    exfalso. apply Hnot. split; reflexivity.
Qed.

(** A request of 100 bytes for a full bin is rejected and still counted:
    the bin goes from 5000 to 6024 bytes. *)
Lemma ServeReservationRequest_charges_iff_guards_pass_witness :
  let s := MeterRequests example_config example_chain
             [(600, example_request 3000); (600, example_request 2000)] empty_store in
  let outcome := ServeReservationRequest example_config 600 (example_request 100)
                   example_reservation s in
  is_ok (fst outcome) = false /\
  bin_usage s "alice" 10 = 5000 /\
  bin_usage (snd outcome) "alice" 10 = 5000 + 1024.
Proof.
  cbv zeta. split; [reflexivity |]. split; [reflexivity |].
  destruct (ServeReservationRequest_charges_iff_guards_pass example_config 600
              (example_request 100) example_reservation
              (MeterRequests example_config example_chain
                 [(600, example_request 3000); (600, example_request 2000)] empty_store)
              example_config_wf) as [Hcharged _].
  exact (eq_trans (Hcharged (conj eq_refl eq_refl)) eq_refl).
Defined.

Lemma MeterRequests_bins_monotone m chain requests s a b :
  0 <= MinChargeableSize m ->
  bin_usage s a b <= bin_usage (MeterRequests m chain requests s) a b.
Proof.
  intros Hmin. revert s.
  induction requests as [| [now header] rest IH]; intros s; simpl; [lia |].
  etransitivity; [apply (MeterRequest_bins_monotone m chain now header s a b Hmin) | apply IH].
Qed.

Lemma MeterRequests_global_monotone m chain requests s t :
  0 <= MinChargeableSize m ->
  global_usage s t <= global_usage (MeterRequests m chain requests s) t.
Proof.
  intros Hmin. revert s.
  induction requests as [| [now header] rest IH]; intros s; simpl; [lia |].
  etransitivity; [apply (MeterRequest_global_monotone m chain now header s t Hmin) | apply IH].
Qed.

(** A request for a bin whose usage is above the rate is not accepted. *)
Lemma IncrementBinUsage_filled m blobHeader reservation s :
  0 <= MinChargeableSize m ->
  0 <= DataRate reservation ->
  DataRate reservation < bin_usage s (AccountID blobHeader) (BinIndex blobHeader) ->
  bin_usage s (AccountID blobHeader) (BinIndex blobHeader) < 18446744073709551616 ->
  fst (IncrementBinUsage m blobHeader reservation s) =
  Err (Errorf "bin has already been filled").
Proof.
  intros Hmin Hrate Hfull Hfits. unfold IncrementBinUsage.
  rewrite (surjective_pairing (UpdateReservationBin s _ _ _)).
  rewrite UpdateReservationBin_result.
  set (old := bin_usage s (AccountID blobHeader) (BinIndex blobHeader)) in *.
  set (size := Z.max (DataLength blobHeader) (MinChargeableSize m)).
  assert (Hsize : 0 <= size) by (subst size; lia).
  destruct (Z.leb_spec (old + size) (DataRate reservation)); [lia |].
  replace (old + size - size) with old by lia.
  rewrite (uint64_small old) by (unfold is_uint64; lia).
  destruct (Z.leb_spec (DataRate reservation) old); [reflexivity | lia].
Qed.

(** X7.  A bin whose stored usage is above the data rate stays closed:
    whatever requests the meterer processes in between, no later
    reservation request for that bin is accepted.  In particular a bin
    spills at most once, since the request that spills leaves its usage
    above the rate. *)
Theorem filled_bin_stays_closed :
  forall (m : Config) (chain : OnchainPaymentState) (requests : list (Z * BlobHeader))
         (now : Z) (header : BlobHeader) (s : OffchainStore)
         (reservation : ActiveReservation),
    0 <= MinChargeableSize m ->
    ActiveReservations chain !! AccountID header = Some reservation ->
    0 <= DataRate reservation ->
    CumulativePayment header = 0 ->
    DataRate reservation < bin_usage s (AccountID header) (BinIndex header) ->
    let s1 := MeterRequests m chain requests s in
    bin_usage s1 (AccountID header) (BinIndex header) < 18446744073709551616 ->
    is_ok (fst (MeterRequest m chain now header s1)) = false.
Proof.
  intros m chain requests now header s reservation Hmin Hres Hrate Hcp Hfull s1 Hfits.
  pose proof (MeterRequests_bins_monotone m chain requests s
                (AccountID header) (BinIndex header) Hmin) as Hmono.
  fold s1 in Hmono.
  destruct (fst (MeterRequest m chain now header s1)) as [[] | e | p] eqn:Hout;
    try reflexivity.
  exfalso.
  assert (Hmeter : MeterRequest m chain now header s1 =
                   (Ok tt, snd (MeterRequest m chain now header s1))).
  { rewrite <- Hout. apply surjective_pairing. }
  destruct (MeterRequest_reservation_Ok_inv _ _ _ _ _ _ Hcp Hmeter) as (r & Hr & Hserve).
  rewrite Hres in Hr. injection Hr as <-.
  destruct (ServeReservationRequest_Ok_inv _ _ _ _ _ _ Hserve) as (_ & _ & _ & Hinc).
  pose proof (IncrementBinUsage_filled m header reservation s1 Hmin Hrate
                ltac:(lia) Hfits) as Hfilled.
  rewrite Hinc in Hfilled. discriminate.
Qed.

(** After the spill of the second boundary scenario, and one more request
    in between, a request of 100 bytes for the same bin is not accepted. *)
Lemma filled_bin_stays_closed_witness :
  let s := MeterRequests example_config example_chain
             [(600, example_request 3000); (600, example_request 2000)] empty_store in
  let s1 := MeterRequests example_config example_chain
              [(630, example_payment 2048 200)] s in
  is_ok (fst (MeterRequest example_config example_chain 640 (example_request 100) s1)) = false.
Proof.
  cbv zeta.
  apply (filled_bin_stays_closed example_config example_chain
           [(630, example_payment 2048 200)] 640 (example_request 100)
           (MeterRequests example_config example_chain
              [(600, example_request 3000); (600, example_request 2000)] empty_store)
           example_reservation);
    try reflexivity; try (cbn; lia); vm_compute; reflexivity.
Defined.

(** One request raises a counter by less than 2^32: by the size it is
    charged, or by a spill, which is smaller than that size. *)
Lemma IncrementBinUsage_bins_below m blobHeader reservation s bound :
  Config_wf m -> BlobHeader_wf blobHeader ->
  bins_below s bound -> bound < 18446744073709551616 ->
  bins_below (snd (IncrementBinUsage m blobHeader reservation s)) (bound + 4294967295).
Proof.
  intros Hm Hh Hbelow Hbound a b.
  pose proof (wf_MinChargeableSize _ Hm) as Hmin.
  pose proof (wf_DataLength _ Hh) as Hlen.
  pose proof (uint32_plus_two_neq _ (wf_BinIndex _ Hh)) as Hne.
  unfold is_uint32 in Hmin, Hlen.
  pose proof (Hbelow a b) as Hab.
  pose proof (Hbelow (AccountID blobHeader) (BinIndex blobHeader)) as Hold.
  unfold IncrementBinUsage.
  rewrite (surjective_pairing (UpdateReservationBin s _ _ _)).
  rewrite UpdateReservationBin_result.
  set (old := bin_usage s (AccountID blobHeader) (BinIndex blobHeader)) in *.
  set (size := Z.max (DataLength blobHeader) (MinChargeableSize m)).
  assert (Hsize : 0 <= size <= 4294967295) by (subst size; lia).
  replace (old + size - size) with old by lia.
  rewrite (uint64_small old) by (unfold is_uint64; lia).
  destruct (Z.leb_spec (old + size) (DataRate reservation)) as [Hle | Hgt];
    [cbn [fst snd]; rewrite bin_usage_UpdateReservationBin; case_decide; simplify_eq;
     fold old; lia |].
  destruct (Z.leb_spec (DataRate reservation) old) as [Hfull | Hfree];
    [cbn [fst snd]; rewrite bin_usage_UpdateReservationBin; case_decide; simplify_eq;
     fold old; lia |].
  assert (Hspill : uint64 (old + size - DataRate reservation) = old + size - DataRate reservation)
    by (apply uint64_small; unfold is_uint64; lia).
  rewrite Hspill.
  repeat match goal with
         | |- context [if ?c then _ else _] => destruct c
         | |- context [match GetBinIndex ?t ?w with _ => _ end] => destruct (GetBinIndex t w)
         | |- context [let '(_, _) := ?u in _] => rewrite (surjective_pairing u)
         end; cbn [fst snd];
    rewrite ?bin_usage_UpdateReservationBin;
    repeat case_decide; simplify_eq; fold old; try lia.
Qed.

Lemma bins_below_weaken s bound bound' :
  bins_below s bound -> bound <= bound' -> bins_below s bound'.
Proof. intros H Hle a b. specialize (H a b). lia. Qed.

Lemma MeterRequest_bins_below m chain now header s bound :
  Config_wf m -> BlobHeader_wf header ->
  bins_below s bound -> bound < 18446744073709551616 ->
  bins_below (snd (MeterRequest m chain now header s)) (bound + 4294967295).
Proof.
  intros Hm Hh Hbelow Hbound.
  assert (Hsame : bins_below s (bound + 4294967295))
    by (eapply bins_below_weaken; [exact Hbelow | lia]).
  destruct (MeterRequest_store_cases m chain now header s)
    as [-> | [(_ & r & _ & ->) | (_ & d & _ & ->)]]; cbn [snd]; [exact Hsame | |].
  - destruct (ServeReservationRequest_store_cases m now header r s) as [-> | ->];
      [exact Hsame |].
    apply IncrementBinUsage_bins_below; assumption.
  - intros a b. unfold bin_usage. rewrite ServeOnDemandRequest_reservation_table.
    apply Hsame.
Qed.

(** An accepted reservation request leaves the usage of its bin, which is
    the usage before plus the size charged, within twice the rate. *)
Lemma MeterRequest_reservation_accepted m chain now header s reservation :
  BlobHeader_wf header ->
  ActiveReservations chain !! AccountID header = Some reservation ->
  0 <= DataRate reservation ->
  CumulativePayment header = 0 ->
  is_uint64 (bin_usage s (AccountID header) (BinIndex header)) ->
  is_uint64 (bin_usage s (AccountID header) (BinIndex header)
             + Z.max (DataLength header) (MinChargeableSize m)) ->
  is_ok (fst (MeterRequest m chain now header s)) = true ->
  bin_usage (snd (MeterRequest m chain now header s)) (AccountID header) (BinIndex header) =
  bin_usage s (AccountID header) (BinIndex header)
  + Z.max (DataLength header) (MinChargeableSize m) /\
  bin_usage s (AccountID header) (BinIndex header)
  + Z.max (DataLength header) (MinChargeableSize m) <= 2 * DataRate reservation.
Proof.
  intros Hh Hres Hrate Hcp Hold Hnew Hok.
  destruct (MeterRequest m chain now header s) as [[[] | e | p] s'] eqn:Hmeter;
    try discriminate.
  cbn [snd].
  destruct (MeterRequest_reservation_Ok_inv _ _ _ _ _ _ Hcp Hmeter) as (r & Hr & Hserve).
  rewrite Hres in Hr. injection Hr as <-.
  destruct (ServeReservationRequest_Ok_inv _ _ _ _ _ _ Hserve) as (_ & _ & Hwin & Hinc).
  destruct (IncrementBinUsage_unfold m header reservation s Hh Hwin Hold Hnew)
    as [(Hs1 & Hs2 & _) Heq].
  rewrite Hinc in Heq.
  set (new_usage := bin_usage s (AccountID header) (BinIndex header)
                    + Z.max (DataLength header) (MinChargeableSize m)) in *.
  destruct (Z.leb_spec new_usage (DataRate reservation)) as [Hle | Hgt].
  - pose proof (f_equal snd Heq) as Hs'. cbn [snd] in Hs'.
    rewrite Hs', Hs1. split; [reflexivity | lia].
  - destruct (_ <=? _); [discriminate |].
    destruct (Z.leb_spec new_usage (uint64 (2 * DataRate reservation))) as [Hdouble | Hover];
      cbn [andb] in Heq; [| discriminate].
    destruct (_ <=? _); [| discriminate].
    pose proof (f_equal snd Heq) as Hs'. cbn [snd] in Hs'. rewrite Hs', Hs2.
    pose proof (uint64_le (2 * DataRate reservation) ltac:(lia)).
    split; [reflexivity | lia].
Qed.

Lemma admitted_bytes_bound m chain reservation accountID binIndex :
  Config_wf m ->
  ActiveReservations chain !! accountID = Some reservation ->
  0 <= DataRate reservation ->
  forall requests s bound,
    Forall (fun request => BlobHeader_wf (snd request)) requests ->
    bins_below s bound ->
    bound + Z.of_nat (length requests) * 4294967296 <= 18446744073709551616 ->
    0 <= admitted_bytes m chain requests s accountID binIndex
      <= Z.max 0 (2 * DataRate reservation - bin_usage s accountID binIndex).
Proof.
  intros Hm Hres Hrate.
  pose proof (wf_MinChargeableSize _ Hm) as Hmin. unfold is_uint32 in Hmin.
  induction requests as [| [now header] rest IH]; intros s bound Hwf Hbelow Hbound.
  - simpl. lia.
  - inversion Hwf as [| ? ? Hh Hrest]; subst. simpl in Hh.
    cbn [admitted_bytes]. cbv zeta.
    rewrite length_cons, Nat2Z.inj_succ in Hbound.
    assert (Hnext : bins_below (snd (MeterRequest m chain now header s)) (bound + 4294967296)).
    { eapply bins_below_weaken;
        [apply MeterRequest_bins_below; [exact Hm | exact Hh | exact Hbelow | lia] | lia]. }
    specialize (IH (snd (MeterRequest m chain now header s)) (bound + 4294967296)
                  Hrest Hnext ltac:(lia)).
    pose proof (MeterRequest_bins_monotone m chain now header s accountID binIndex
                  ltac:(lia)) as Hmono.
    destruct (is_ok (fst (MeterRequest m chain now header s))
              && (CumulativePayment header =? 0)
              && bool_decide (AccountID header = accountID)
              && (BinIndex header =? binIndex)) eqn:Hcount.
    + apply andb_true_iff in Hcount as [Hcount Hbin].
      apply andb_true_iff in Hcount as [Hcount Hacc].
      apply andb_true_iff in Hcount as [Hok Hcp].
      apply Z.eqb_eq in Hbin, Hcp. apply bool_decide_eq_true in Hacc. subst accountID binIndex.
      pose proof (Hbelow (AccountID header) (BinIndex header)) as Hold.
      pose proof (wf_DataLength _ Hh) as Hlen. unfold is_uint32 in Hlen.
      destruct (MeterRequest_reservation_accepted m chain now header s reservation
                  Hh Hres Hrate Hcp) as [Hafter Htwice];
        [unfold is_uint64; lia | unfold is_uint64; lia | exact Hok |].
      rewrite Hafter in IH. unfold BlobSizeCharged. lia.
    + lia.
Qed.

(** X8.  The reservation path admits at most twice the data rate per bin.
    However many requests the meterer processes, accepted or not and for
    whatever accounts and bins, the sizes charged to the accepted
    reservation requests of one account for one bin add up to at most
    [2 * data_rate] of the account's reservation, and to no more than the
    room the bin had left below that. *)
Theorem reservation_path_admits_at_most_twice_the_rate :
  forall (m : Config) (chain : OnchainPaymentState) (reservation : ActiveReservation)
         (requests : list (Z * BlobHeader)) (s : OffchainStore)
         (accountID : string) (binIndex bound : Z),
    Config_wf m ->
    ActiveReservations chain !! accountID = Some reservation ->
    0 <= DataRate reservation ->
    Forall (fun request => BlobHeader_wf (snd request)) requests ->
    bins_below s bound ->
    bound + Z.of_nat (length requests) * 4294967296 <= 18446744073709551616 ->
    admitted_bytes m chain requests s accountID binIndex <= 2 * DataRate reservation /\
    admitted_bytes m chain requests s accountID binIndex
      <= Z.max 0 (2 * DataRate reservation - bin_usage s accountID binIndex).
Proof.
  intros m chain reservation requests s accountID binIndex bound
    Hm Hres Hrate Hwf Hbelow Hbound.
  pose proof (admitted_bytes_bound m chain reservation accountID binIndex Hm Hres Hrate
                requests s bound Hwf Hbelow Hbound) as Hadm.
  pose proof (Hbelow accountID binIndex). lia.
Qed.

(** Three requests of 3000 bytes at a rate of 4096: two are admitted, 6000
    bytes, and 6000 is within 8192. *)
Lemma reservation_path_admits_at_most_twice_the_rate_witness :
  admitted_bytes example_config example_chain
    [(600, example_request 3000); (600, example_request 3000); (600, example_request 3000)]
    empty_store "alice" 10 = 6000 /\
  admitted_bytes example_config example_chain
    [(600, example_request 3000); (600, example_request 3000); (600, example_request 3000)]
    empty_store "alice" 10 <= 2 * DataRate example_reservation.
Proof.
  split; [reflexivity |].
  apply (reservation_path_admits_at_most_twice_the_rate example_config example_chain
           example_reservation _ empty_store "alice" 10 0).
  - exact example_config_wf.
  - reflexivity.
  - cbn. lia.
  - repeat constructor; cbn; unfold is_uint32, is_uint64, is_uint8; lia.
  - intros a b. unfold bin_usage, empty_store. simpl. rewrite lookup_empty. simpl. lia.
  - cbn. lia.
Defined.

(** ** On-demand path: the global cap and the payment history *)

Lemma ServeOnDemandRequest_Ok_inv m now blobHeader onDemandPayment s s' :
  ServeOnDemandRequest m now blobHeader onDemandPayment s = (Ok tt, s') ->
  let size := BlobSizeCharged m (DataLength blobHeader) in
  ValidateQuorum blobHeader OnDemandQuorumNumbers = Ok tt /\
  exists s1,
    AddOnDemandPayment s blobHeader size = (Ok tt, s1) /\
    ValidatePayment m blobHeader onDemandPayment s1 = Ok tt /\
    global_usage s (uint64 now) + size <= GlobalBytesPerSecond m /\
    s' = snd (UpdateGlobalBin s1 (uint64 now) size).
Proof.
  intros Hserve. cbv zeta.
  destruct (ValidateQuorum blobHeader OnDemandQuorumNumbers) as [[] | e | p] eqn:Hq;
    [| unfold ServeOnDemandRequest in Hserve; rewrite Hq in Hserve; discriminate ..].
  split; [reflexivity |].
  destruct (AddOnDemandPayment s blobHeader (BlobSizeCharged m (DataLength blobHeader)))
    as [[[] | e | p] s1] eqn:Hadd;
    [| unfold ServeOnDemandRequest in Hserve; rewrite Hq, Hadd in Hserve; discriminate ..].
  exists s1. split; [reflexivity |].
  rewrite (ServeOnDemandRequest_inserted _ _ _ _ _ _ Hq Hadd) in Hserve.
  destruct (AddOnDemandPayment_Ok_inv _ _ _ _ Hadd) as (_ & _ & Hglobal & _).
  assert (Husage : global_usage s1 (uint64 now) = global_usage s (uint64 now))
    by (unfold global_usage; rewrite Hglobal; reflexivity).
  destruct (ValidatePayment m blobHeader onDemandPayment s1) as [[] | e | p];
    try discriminate.
  cbv zeta in Hserve. rewrite Husage in Hserve.
  destruct (Z.ltb_spec (GlobalBytesPerSecond m)
              (global_usage s (uint64 now) + BlobSizeCharged m (DataLength blobHeader)));
    [discriminate |].
  pose proof (f_equal snd Hserve) as Hs'. cbn [snd] in Hs'.
  repeat split; [assumption | congruence].
Qed.

Lemma MeterRequest_on_demand_Ok_inv m chain now header s s' :
  CumulativePayment header <> 0 ->
  MeterRequest m chain now header s = (Ok tt, s') ->
  exists onDemandPayment,
    OnDemandPayments chain !! AccountID header = Some onDemandPayment /\
    ServeOnDemandRequest m now header onDemandPayment s = (Ok tt, s').
Proof.
  intros Hcp. apply Z.eqb_neq in Hcp.
  unfold MeterRequest, GetCurrentBlockNumber, GetOnDemandPaymentByAccount.
  rewrite Hcp.
  destruct (CurrentBlockNumber chain); [| discriminate].
  destruct (OnDemandPayments chain !! AccountID header) as [d |]; [| discriminate].
  intros Hmeter. exists d. split; [reflexivity |].
  destruct (ServeOnDemandRequest m now header d s) as [[[] | e | p] s1];
    try discriminate.
  exact Hmeter.
Qed.

Lemma admitted_on_demand_bytes_bound m chain second :
  0 <= MinChargeableSize m ->
  forall requests s,
    admitted_on_demand_bytes m chain requests s second
      <= Z.max 0 (GlobalBytesPerSecond m - global_usage s second).
Proof.
  intros Hmin.
  induction requests as [| [now header] rest IH]; intros s.
  - simpl. lia.
  - cbn [admitted_on_demand_bytes]. cbv zeta.
    specialize (IH (snd (MeterRequest m chain now header s))).
    pose proof (MeterRequest_global_monotone m chain now header s second Hmin) as Hmono.
    destruct (is_ok (fst (MeterRequest m chain now header s))
              && negb (CumulativePayment header =? 0)
              && (uint64 now =? second)) eqn:Hcount; [| lia].
    apply andb_true_iff in Hcount as [Hcount Hsec].
    apply andb_true_iff in Hcount as [Hok Hcp].
    apply Z.eqb_eq in Hsec. apply negb_true_iff, Z.eqb_neq in Hcp. subst second.
    destruct (MeterRequest m chain now header s) as [[[] | e | p] s'] eqn:Hmeter;
      try discriminate.
    cbn [snd] in *.
    destruct (MeterRequest_on_demand_Ok_inv _ _ _ _ _ _ Hcp Hmeter) as (d & _ & Hserve).
    destruct (ServeOnDemandRequest_Ok_inv _ _ _ _ _ _ Hserve)
      as (_ & s1 & Hadd & _ & Hcap & Hs').
    destruct (AddOnDemandPayment_Ok_inv _ _ _ _ Hadd) as (_ & _ & Hglobal & _).
    assert (Hafter : global_usage s' (uint64 now) =
                     global_usage s (uint64 now) + BlobSizeCharged m (DataLength header)).
    { rewrite Hs', global_usage_UpdateGlobalBin. unfold global_usage.
      rewrite Hglobal. reflexivity. }
    rewrite Hafter in IH. lia.
Qed.

(** X9.  The on-demand path admits at most the global rate per second.
    However many requests the meterer processes, the sizes charged to the
    accepted on-demand requests that arrive in one second add up to at
    most [GlobalBytesPerSecond], and to no more than the room the counter
    of that second had left below it. *)
Theorem on_demand_path_admits_at_most_the_global_rate :
  forall (m : Config) (chain : OnchainPaymentState)
         (requests : list (Z * BlobHeader)) (s : OffchainStore) (second : Z),
    Config_wf m ->
    0 <= global_usage s second ->
    admitted_on_demand_bytes m chain requests s second <= GlobalBytesPerSecond m /\
    admitted_on_demand_bytes m chain requests s second
      <= Z.max 0 (GlobalBytesPerSecond m - global_usage s second).
Proof.
  intros m chain requests s second Hm Husage.
  pose proof (wf_MinChargeableSize _ Hm) as Hmin. unfold is_uint32 in Hmin.
  pose proof (wf_GlobalBytesPerSecond _ Hm) as Hcap. unfold is_uint64 in Hcap.
  pose proof (admitted_on_demand_bytes_bound m chain second ltac:(lia) requests s).
  lia.
Qed.

(** With a cap of 1048576 bytes per second, of three on-demand requests of
    600000 bytes only the first of second 600 is admitted; the second
    would bring the counter to 1200000. *)
Lemma on_demand_path_admits_at_most_the_global_rate_witness :
  admitted_on_demand_bytes example_config example_chain
    [(600, example_payment 600000 58594); (600, example_payment 600000 117188);
     (601, example_payment 600000 117188)]
    empty_store 600 = 600000 /\
  admitted_on_demand_bytes example_config example_chain
    [(600, example_payment 600000 58594); (600, example_payment 600000 117188);
     (601, example_payment 600000 117188)]
    empty_store 600 <= GlobalBytesPerSecond example_config.
Proof.
  split; [reflexivity |].
  apply (on_demand_path_admits_at_most_the_global_rate example_config example_chain _
           empty_store 600).
  - exact example_config_wf.
  - unfold global_usage, empty_store. simpl. rewrite lookup_empty. simpl. lia.
Defined.

Lemma MeterRequest_record_persists m chain now header s k v :
  OnDemand s !! k = Some v ->
  OnDemand (snd (MeterRequest m chain now header s)) !! k = Some v.
Proof.
  intros Hk.
  destruct (decide (k = (AccountID header, CumulativePayment header))) as [-> | Hne].
  - destruct (MeterRequest_store_cases m chain now header s)
      as [-> | [(_ & r & _ & ->) | (_ & d & _ & ->)]]; cbn [snd]; [exact Hk | |].
    + destruct (ServeReservationRequest_other_tables m now header r s) as [_ ->]. exact Hk.
    + destruct (ServeOnDemandRequest_store m now header d s) as (_ & _ & Hsame & _).
      rewrite (Hsame v Hk). exact Hk.
  - rewrite MeterRequest_other_record by exact Hne. exact Hk.
Qed.

Lemma MeterRequests_record_persists m chain requests :
  forall s k v,
    OnDemand s !! k = Some v ->
    OnDemand (MeterRequests m chain requests s) !! k = Some v.
Proof.
  induction requests as [| [now header] rest IH]; intros s k v Hk; [exact Hk |].
  cbn [MeterRequests]. apply IH, MeterRequest_record_persists, Hk.
Qed.

(** A request whose payment is already on record is refused and changes
    nothing. *)
Lemma MeterRequest_recorded_payment m chain now header s v :
  CumulativePayment header <> 0 ->
  OnDemand s !! (AccountID header, CumulativePayment header) = Some v ->
  is_ok (fst (MeterRequest m chain now header s)) = false /\
  snd (MeterRequest m chain now header s) = s.
Proof.
  intros Hcp Hk.
  destruct (MeterRequest m chain now header s) as [[[] | e | p] s'] eqn:Hmeter; cbn [fst snd].
  - exfalso.
    destruct (MeterRequest_on_demand_Ok_inv _ _ _ _ _ _ Hcp Hmeter) as (d & _ & Hserve).
    destruct (ServeOnDemandRequest_Ok_inv _ _ _ _ _ _ Hserve) as (_ & s1 & Hadd & _).
    destruct (AddOnDemandPayment_Ok_inv _ _ _ _ Hadd) as (Hnone & _). congruence.
  - split; [reflexivity |].
    pose proof (f_equal snd Hmeter) as Hs'. cbn [snd] in Hs'. rewrite <- Hs'.
    destruct (MeterRequest_store_cases m chain now header s)
      as [Hsame | [(Hz & _) | (_ & d & _ & Heq)]]; [exact Hsame | contradiction |].
    rewrite Heq. cbn [snd].
    destruct (ServeOnDemandRequest_store m now header d s) as (_ & _ & Hsame & _).
    exact (Hsame v Hk).
  - split; [reflexivity |].
    pose proof (f_equal snd Hmeter) as Hs'. cbn [snd] in Hs'. rewrite <- Hs'.
    destruct (MeterRequest_store_cases m chain now header s)
      as [Hsame | [(Hz & _) | (_ & d & _ & Heq)]]; [exact Hsame | contradiction |].
    rewrite Heq. cbn [snd].
    destruct (ServeOnDemandRequest_store m now header d s) as (_ & _ & Hsame & _).
    exact (Hsame v Hk).
Qed.

(** An accepted on-demand request leaves its record in the store. *)
Lemma MeterRequest_accepted_payment_recorded m chain now header s :
  CumulativePayment header <> 0 ->
  is_ok (fst (MeterRequest m chain now header s)) = true ->
  OnDemand (snd (MeterRequest m chain now header s))
    !! (AccountID header, CumulativePayment header)
  = Some (BlobSizeCharged m (DataLength header)).
Proof.
  intros Hcp Hok.
  destruct (MeterRequest m chain now header s) as [[[] | e | p] s'] eqn:Hmeter;
    try discriminate.
  cbn [snd].
  destruct (MeterRequest_on_demand_Ok_inv _ _ _ _ _ _ Hcp Hmeter) as (d & _ & Hserve).
  destruct (ServeOnDemandRequest_Ok_inv _ _ _ _ _ _ Hserve) as (_ & s1 & Hadd & _ & _ & ->).
  destruct (AddOnDemandPayment_Ok_inv _ _ _ _ Hadd) as (_ & Hins & _).
  rewrite OnDemand_UpdateGlobalBin, Hins. apply lookup_insert_eq.
Qed.

Lemma accepted_payments_recorded m chain accountID payment :
  payment <> 0 ->
  forall requests s v,
    OnDemand s !! (accountID, payment) = Some v ->
    accepted_payments m chain requests s accountID payment = 0%nat.
Proof.
  intros Hp.
  induction requests as [| [now header] rest IH]; intros s v Hk; [reflexivity |].
  cbn [accepted_payments]. cbv zeta.
  rewrite (IH _ v (MeterRequest_record_persists m chain now header s _ _ Hk)).
  destruct (is_ok (fst (MeterRequest m chain now header s))
            && bool_decide (AccountID header = accountID)
            && (CumulativePayment header =? payment)) eqn:Hcount; [| reflexivity].
  apply andb_true_iff in Hcount as [Hcount Hpay].
  apply andb_true_iff in Hcount as [Hok Hacc].
  apply Z.eqb_eq in Hpay. apply bool_decide_eq_true in Hacc. subst accountID payment.
  destruct (MeterRequest_recorded_payment m chain now header s v Hp Hk) as [Hno _].
  congruence.
Qed.

(** X10.  No cumulative payment is accepted twice.  In any sequence of
    requests, metered from any store, at most one request of an account
    with a given non-zero cumulative payment is accepted; none is if the
    store already holds a record of that payment, and such a request
    leaves the store as it is. *)
Theorem cumulative_payment_is_accepted_at_most_once :
  forall (m : Config) (chain : OnchainPaymentState) (requests : list (Z * BlobHeader))
         (s : OffchainStore) (accountID : string) (payment : Z),
    payment <> 0 ->
    (accepted_payments m chain requests s accountID payment <= 1)%nat /\
    (forall v, OnDemand s !! (accountID, payment) = Some v ->
               accepted_payments m chain requests s accountID payment = 0%nat /\
               OnDemand (MeterRequests m chain requests s) !! (accountID, payment) = Some v).
Proof.
  intros m chain requests s accountID payment Hp. split.
  - revert s. induction requests as [| [now header] rest IH]; intros s; [simpl; lia |].
    cbn [accepted_payments]. cbv zeta.
    destruct (is_ok (fst (MeterRequest m chain now header s))
              && bool_decide (AccountID header = accountID)
              && (CumulativePayment header =? payment)) eqn:Hcount.
    + apply andb_true_iff in Hcount as [Hcount Hpay].
      apply andb_true_iff in Hcount as [Hok Hacc].
      apply Z.eqb_eq in Hpay. apply bool_decide_eq_true in Hacc. subst accountID payment.
      rewrite (accepted_payments_recorded m chain _ _ Hp rest _ _
                 (MeterRequest_accepted_payment_recorded m chain now header s Hp Hok)).
      lia.
    + specialize (IH (snd (MeterRequest m chain now header s))). lia.
  - intros v Hk. split.
    + eapply accepted_payments_recorded; eassumption.
    + apply MeterRequests_record_persists, Hk.
Qed.

(** The payment of 200 is presented three times: the first request is
    accepted, the other two are refused. *)
Lemma cumulative_payment_is_accepted_at_most_once_witness :
  accepted_payments example_config example_chain
    [(600, example_payment 1024 200); (601, example_payment 1024 200);
     (700, example_payment 2048 200)]
    empty_store "bob" 200 = 1%nat /\
  Nat.le
    (accepted_payments example_config example_chain
       [(600, example_payment 1024 200); (601, example_payment 1024 200);
        (700, example_payment 2048 200)]
       empty_store "bob" 200) 1.
Proof.
  split; [reflexivity |].
  apply (cumulative_payment_is_accepted_at_most_once example_config example_chain _
           empty_store "bob" 200).
  lia.
Defined.

Lemma AddOnDemandPayment_with_payment m blobHeader s :
  OnDemand s !! (AccountID blobHeader, CumulativePayment blobHeader) = None ->
  AddOnDemandPayment s blobHeader (BlobSizeCharged m (DataLength blobHeader)) =
  (Ok tt, with_payment m blobHeader s).
Proof.
  intros Hnone. unfold with_payment, AddOnDemandPayment. rewrite Hnone. reflexivity.
Qed.

(** X11.  No rollback of a payment that fails validation.  An on-demand
    request that passes the quorum check and whose payment is not yet on
    record is recorded before it is validated; if [ValidatePayment] then
    refuses it, the request is rejected and the store after it is the
    store with the record added, nothing else being changed.  The
    payment is thereby used up: no later request of the account with this
    cumulative payment is accepted, whatever the chain says by then. *)
Theorem rejected_payment_stays_recorded :
  forall (m : Config) (chain : OnchainPaymentState) (now : Z) (header : BlobHeader)
         (s : OffchainStore) (blockNumber : Z) (onDemandPayment : OnDemandPayment),
    CurrentBlockNumber chain = Some blockNumber ->
    CumulativePayment header <> 0 ->
    OnDemandPayments chain !! AccountID header = Some onDemandPayment ->
    ValidateQuorum header OnDemandQuorumNumbers = Ok tt ->
    OnDemand s !! (AccountID header, CumulativePayment header) = None ->
    ValidatePayment m header onDemandPayment (with_payment m header s) <> Ok tt ->
    let outcome := MeterRequest m chain now header s in
    is_ok (fst outcome) = false /\
    snd outcome = with_payment m header s /\
    OnDemand (snd outcome) !! (AccountID header, CumulativePayment header)
      = Some (BlobSizeCharged m (DataLength header)) /\
    GlobalBins (snd outcome) = GlobalBins s /\
    ReservationBins (snd outcome) = ReservationBins s /\
    forall chain' requests,
      accepted_payments m chain' requests (snd outcome)
        (AccountID header) (CumulativePayment header) = 0%nat.
Proof.
  intros m chain now header s blockNumber d Hblock Hcp Hdeposit Hq Hnone Hinvalid.
  cbv zeta.
  pose proof (AddOnDemandPayment_with_payment m header s Hnone) as Hadd.
  destruct (AddOnDemandPayment_Ok_inv _ _ _ _ Hadd) as (_ & Hins & Hglobal & Hbins).
  assert (Hmeter : is_ok (fst (MeterRequest m chain now header s)) = false /\
                   snd (MeterRequest m chain now header s) = with_payment m header s).
  { unfold MeterRequest, GetCurrentBlockNumber, GetOnDemandPaymentByAccount.
    rewrite Hblock, Hdeposit.
    apply Z.eqb_neq in Hcp. rewrite Hcp.
    rewrite (ServeOnDemandRequest_inserted _ _ _ _ _ _ Hq Hadd).
    destruct (ValidatePayment m header d (with_payment m header s)) as [[] | e | p];
      [contradiction | split; reflexivity ..]. }
  destruct Hmeter as [Hrejected Hstore].
  rewrite Hstore.
  assert (Hrecord : OnDemand (with_payment m header s)
                      !! (AccountID header, CumulativePayment header)
                    = Some (BlobSizeCharged m (DataLength header)))
    by (rewrite Hins; apply lookup_insert_eq).
  repeat split; try assumption.
  intros chain' requests.
  eapply accepted_payments_recorded; eassumption.
Qed.

(** A payment of 2000000 against a deposit of 1000000 is refused, and the
    record stays: the same payment is refused again once the deposit is
    3000000. *)
Lemma rejected_payment_stays_recorded_witness :
  let outcome := MeterRequest example_config example_chain 600
                   (example_payment 1024 2000000) empty_store in
  let richer := {| CurrentBlockNumber := Some 2;
                   ActiveReservations := ActiveReservations example_chain;
                   OnDemandPayments := {[ "bob" := mkOnDemandPayment 3000000 ]} |} in
  is_ok (fst outcome) = false /\
  OnDemand (snd outcome) !! ("bob", 2000000) = Some 1024 /\
  accepted_payments example_config richer
    [(900, example_payment 1024 2000000)] (snd outcome) "bob" 2000000 = 0%nat /\
  accepted_payments example_config richer
    [(900, example_payment 1024 2000000)] empty_store "bob" 2000000 = 1%nat.
Proof.
  cbv zeta.
  destruct (rejected_payment_stays_recorded example_config example_chain 600
              (example_payment 1024 2000000) empty_store 1 example_deposit)
    as (Hrejected & _ & Hrecord & _ & _ & Hused);
    [reflexivity | cbn; lia | reflexivity | reflexivity | reflexivity
    | vm_compute; discriminate |].
  split; [exact Hrejected |]. split; [exact Hrecord |].
  split; [apply Hused | reflexivity].
Defined.

Lemma ValidatePayment_Ok_nonzero m blobHeader onDemandPayment s :
  ValidatePayment m blobHeader onDemandPayment s = Ok tt -> MinChargeableSize m <> 0.
Proof.
  intros Hok Hzero. revert Hok. unfold ValidatePayment.
  destruct (_ <? _); [discriminate |].
  rewrite GetRelevantOnDemandRecords_stored.
  unfold PaymentCharged, RoundUpDivide. rewrite Hzero. simpl. discriminate.
Qed.

(** What an accepted payment satisfies, on the store that holds its
    record: the two order checks of [ValidatePayment] without their
    wrap-around, for a payment that leaves room for a charge below 2^64. *)
Lemma ValidatePayment_Ok_inv m blobHeader onDemandPayment s :
  Config_wf m ->
  BlobHeader_wf blobHeader ->
  CumulativePayment blobHeader <= 18446744069414584320 ->
  ValidatePayment m blobHeader onDemandPayment s = Ok tt ->
  let payment := CumulativePayment blobHeader in
  let account := AccountID blobHeader in
  payment <= DepositCumulativePayment onDemandPayment /\
  (forall p lp, OnDemand s !! (account, p) = Some lp -> p < payment ->
                p + charged m (DataLength blobHeader) <= payment) /\
  charged m (DataLength blobHeader) <= payment /\
  (forall q lq, OnDemand s !! (account, q) = Some lq -> payment < q ->
     exists next next_len,
       OnDemand s !! (account, next) = Some next_len /\
       payment < next /\ payment + charged m next_len <= next /\ next <= q).
Proof.
  intros Hm Hh Hroom Hok. cbv zeta.
  pose proof (ValidatePayment_Ok_nonzero _ _ _ _ Hok) as Hne.
  rewrite (ValidatePayment_unfold m blobHeader onDemandPayment s Hne) in Hok.
  cbv zeta in Hok.
  pose proof (wf_CumulativePayment _ Hh) as Hcp. unfold is_uint64 in Hcp.
  destruct (stored_neighbours s (AccountID blobHeader) (CumulativePayment blobHeader))
    as (Hprev0 & [Hupper Hprev] & Hnext).
  pose proof (charged_range m (DataLength blobHeader) Hm) as Hcharge.
  set (prev := stored_prev s (AccountID blobHeader) (CumulativePayment blobHeader)) in *.
  set (next := fst (stored_next s (AccountID blobHeader) (CumulativePayment blobHeader))) in *.
  set (next_len := snd (stored_next s (AccountID blobHeader) (CumulativePayment blobHeader)))
    in *.
  assert (Hprev_le : prev <= CumulativePayment blobHeader)
    by (destruct Hprev as [[-> _] | [Hlt _]]; lia).
  destruct (Z.ltb_spec (DepositCumulativePayment onDemandPayment)
              (CumulativePayment blobHeader)); [discriminate |].
  rewrite (uint64_small (prev + charged m (DataLength blobHeader))) in Hok
    by (unfold is_uint64; lia).
  destruct (Z.ltb_spec (CumulativePayment blobHeader)
              (prev + charged m (DataLength blobHeader))); [discriminate |].
  split; [assumption |].
  split; [intros p lp Hp Hlt; specialize (Hupper p lp Hp Hlt); lia |].
  split; [lia |].
  intros q lq Hq Hlt.
  destruct Hnext as [(_ & _ & Hnone) | (Hstored & Hgt & Hmin)].
  - specialize (Hnone q lq Hq). lia.
  - exists next, next_len. split; [exact Hstored |]. split; [exact Hgt |].
    split; [| exact (Hmin q lq Hq Hlt)].
    pose proof (charged_range m next_len Hm) as Hnext_charge.
    rewrite (uint64_small (CumulativePayment blobHeader + charged m next_len)) in Hok
      by (unfold is_uint64; lia).
    destruct (Z.eqb_spec next 0) as [Hz | _]; [lia |].
    cbn [negb andb] in Hok.
    destruct (Z.ltb_spec next (CumulativePayment blobHeader + charged m next_len));
      [discriminate | assumption].
Qed.

Lemma charged_BlobSizeCharged m dataLength :
  charged m (BlobSizeCharged m dataLength) = charged m dataLength.
Proof. unfold charged. rewrite PaymentCharged_BlobSizeCharged. reflexivity. Qed.

(** X12.  An accepted payment keeps the payment history in order.  For an
    accepted on-demand request whose cumulative payment leaves room for a
    charge below 2^64: the payment is within the deposit, it exceeds every
    smaller payment on record for the account by at least the request's
    own charge, and if before the request any two recorded payments of an
    account were apart by at least the charge of the later one, they still
    are afterwards, the new record included. *)
Theorem accepted_payment_keeps_history_consistent :
  forall (m : Config) (chain : OnchainPaymentState) (now : Z) (header : BlobHeader)
         (s : OffchainStore),
    Config_wf m ->
    BlobHeader_wf header ->
    CumulativePayment header <> 0 ->
    CumulativePayment header <= 18446744069414584320 ->
    is_ok (fst (MeterRequest m chain now header s)) = true ->
    let s' := snd (MeterRequest m chain now header s) in
    (exists onDemandPayment,
        OnDemandPayments chain !! AccountID header = Some onDemandPayment /\
        CumulativePayment header <= DepositCumulativePayment onDemandPayment) /\
    charged m (DataLength header) <= CumulativePayment header /\
    (forall p lp,
        OnDemand s !! (AccountID header, p) = Some lp -> p < CumulativePayment header ->
        p + charged m (DataLength header) <= CumulativePayment header) /\
    (forall accountID, payments_consistent m s accountID -> payments_consistent m s' accountID).
Proof.
  intros m chain now header s Hm Hh Hcp Hroom Hok. cbv zeta.
  destruct (MeterRequest m chain now header s) as [[[] | e | r] s'] eqn:Hmeter;
    try discriminate.
  cbn [snd].
  destruct (MeterRequest_on_demand_Ok_inv _ _ _ _ _ _ Hcp Hmeter) as (d & Hd & Hserve).
  destruct (ServeOnDemandRequest_Ok_inv _ _ _ _ _ _ Hserve)
    as (_ & s1 & Hadd & Hvalid & _ & ->).
  destruct (AddOnDemandPayment_Ok_inv _ _ _ _ Hadd) as (Hnone & Hins & _).
  destruct (ValidatePayment_Ok_inv m header d s1 Hm Hh Hroom Hvalid)
    as (Hdeposit & Hbelow & Hcharge & Habove).
  assert (Hold : forall a p l, OnDemand s !! (a, p) = Some l ->
                               OnDemand s1 !! (a, p) = Some l).
  { intros a p l Hl. rewrite Hins. rewrite lookup_insert_ne; [exact Hl |].
    intros Heq. rewrite Heq in Hnone. congruence. }
  split; [exists d; split; assumption |].
  split; [exact Hcharge |].
  split; [intros p lp Hp Hlt; exact (Hbelow p lp (Hold _ _ _ Hp) Hlt) |].
  intros a Hcons p q lp lq Hp Hq Hlt.
  rewrite OnDemand_UpdateGlobalBin in Hp, Hq.
  pose proof Hp as Hp1. pose proof Hq as Hq1.
  rewrite Hins in Hp, Hq.
  apply lookup_insert_Some in Hp as [[Hkp Hlp] | [Hkp Hp]];
    apply lookup_insert_Some in Hq as [[Hkq Hlq] | [Hkq Hq]].
  - injection Hkp as <- <-. injection Hkq as <-. lia.
  - injection Hkp as <- <-.
    destruct (Habove q lq Hq1 Hlt) as (next & next_len & Hnext & Hgt & Hgap & Hle).
    destruct (decide (next = q)) as [-> | Hne].
    + rewrite Hnext in Hq1. injection Hq1 as ->. exact Hgap.
    + rewrite Hins in Hnext. rewrite lookup_insert_ne in Hnext
        by (intros [=]; lia).
      pose proof (Hcons next q next_len lq Hnext Hq ltac:(lia)). lia.
  - injection Hkq as <- <-. subst lq.
    rewrite charged_BlobSizeCharged. exact (Hbelow p lp Hp1 Hlt).
  - exact (Hcons p q lp lq Hp Hq Hlt).
Qed.

(** After the payment of 200, a payment of 300 for 1024 bytes (charge 100)
    is accepted: it is 100 above the payment on record. *)
Lemma accepted_payment_keeps_history_consistent_witness :
  is_ok (fst (MeterRequest example_config example_chain 600 (example_payment 1024 300)
                example_history)) = true /\
  charged example_config 1024 = 100 /\
  200 + charged example_config 1024 <= 300.
Proof.
  destruct (accepted_payment_keeps_history_consistent example_config example_chain 600
              (example_payment 1024 300) example_history)
    as (_ & _ & Hbelow & _).
  - exact example_config_wf.
  - constructor; cbn; [unfold is_uint32; lia | repeat constructor; unfold is_uint8; lia
                      | unfold is_uint32; lia | unfold is_uint64; lia].
  - cbn. lia.
  - cbn. lia.
  - reflexivity.
  - split; [reflexivity |]. split; [reflexivity |].
    apply (Hbelow 200 2048); [reflexivity | cbn; lia].
Defined.

(** ** Run-time panics *)

Lemma ServeReservationRequest_Panic_inv m now blobHeader reservation s reason :
  fst (ServeReservationRequest m now blobHeader reservation s) = Panic reason ->
  reason = divide_by_zero /\ ReservationWindow m = 0 /\
  snd (ServeReservationRequest m now blobHeader reservation s) = s.
Proof.
  unfold ServeReservationRequest.
  destruct (ValidateQuorum_outcome blobHeader (ReservationQuorumNumbers reservation))
    as [-> | [e ->]]; [| discriminate].
  destruct (Z.eq_dec (ReservationWindow m) 0) as [Hz | Hnz].
  - unfold ValidateBinIndex. rewrite Hz, GetBinIndex_zero. cbn [fst snd].
    intros [= <-]. auto.
  - rewrite ValidateBinIndex_nonzero by exact Hnz.
    destruct (_ && _); [| discriminate].
    unfold IncrementBinUsage, UpdateReservationBin. cbv zeta.
    rewrite GetBinIndex_nonzero by exact Hnz.
    repeat (destruct (_ <=? _); try discriminate).
Qed.

Lemma ServeOnDemandRequest_Panic_inv m now blobHeader onDemandPayment s reason :
  fst (ServeOnDemandRequest m now blobHeader onDemandPayment s) = Panic reason ->
  reason = divide_by_zero /\ MinChargeableSize m = 0 /\
  CumulativePayment blobHeader <= DepositCumulativePayment onDemandPayment /\
  snd (ServeOnDemandRequest m now blobHeader onDemandPayment s) = with_payment m blobHeader s.
Proof.
  unfold ServeOnDemandRequest, with_payment.
  destruct (ValidateQuorum_outcome blobHeader OnDemandQuorumNumbers)
    as [-> | [e ->]]; [| discriminate].
  cbv zeta.
  destruct (AddOnDemandPayment s blobHeader (BlobSizeCharged m (DataLength blobHeader)))
    as [[[] | e | p] s1] eqn:Hadd;
    [| discriminate | unfold AddOnDemandPayment in Hadd; destruct (_ !! _); discriminate].
  destruct (Z.eq_dec (MinChargeableSize m) 0) as [Hz | Hnz].
  - unfold ValidatePayment.
    destruct (Z.ltb_spec (DepositCumulativePayment onDemandPayment)
                (CumulativePayment blobHeader)); [discriminate |].
    rewrite GetRelevantOnDemandRecords_stored.
    unfold PaymentCharged, RoundUpDivide. rewrite Hz. cbn.
    intros [= <-]. auto.
  - rewrite (ValidatePayment_unfold m blobHeader onDemandPayment s1 Hnz). cbv zeta.
    repeat (destruct (_ <? _); try discriminate);
      repeat (destruct (negb _ && _); try discriminate);
      rewrite IncrementGlobalBinUsage_unfold; destruct (_ <? _); discriminate.
Qed.

(** X13.  The meterer panics exactly on a zero divisor of its
    configuration.  A panic of [MeterRequest] is always the integer
    division by zero: of a reservation request under a zero reservation
    window, which leaves the store untouched, or of an on-demand request
    under a zero minimum chargeable size, whose record has been added by
    then and stays.  With both settings non-zero no request panics; with
    a zero window every reservation request that passes the quorum check
    does. *)
Theorem MeterRequest_panics_exactly_on_a_zero_divisor :
  forall (m : Config) (chain : OnchainPaymentState) (now : Z) (header : BlobHeader)
         (s : OffchainStore),
    let outcome := MeterRequest m chain now header s in
    (forall reason,
        fst outcome = Panic reason ->
        reason = divide_by_zero /\
        ((CumulativePayment header = 0 /\ ReservationWindow m = 0 /\ snd outcome = s) \/
         (CumulativePayment header <> 0 /\ MinChargeableSize m = 0 /\
          snd outcome = with_payment m header s))) /\
    (ReservationWindow m <> 0 -> MinChargeableSize m <> 0 ->
     forall reason, fst outcome <> Panic reason) /\
    (forall blockNumber reservation,
        ReservationWindow m = 0 ->
        CurrentBlockNumber chain = Some blockNumber ->
        CumulativePayment header = 0 ->
        ActiveReservations chain !! AccountID header = Some reservation ->
        ValidateQuorum header (ReservationQuorumNumbers reservation) = Ok tt ->
        outcome = (Panic divide_by_zero, s)).
Proof.
  intros m chain now header s. cbv zeta.
  assert (Hinv : forall reason,
             fst (MeterRequest m chain now header s) = Panic reason ->
             reason = divide_by_zero /\
             ((CumulativePayment header = 0 /\ ReservationWindow m = 0 /\
               snd (MeterRequest m chain now header s) = s) \/
              (CumulativePayment header <> 0 /\ MinChargeableSize m = 0 /\
               snd (MeterRequest m chain now header s) = with_payment m header s))).
  { intros reason.
    unfold MeterRequest, GetCurrentBlockNumber, GetActiveReservationByAccount,
      GetOnDemandPaymentByAccount.
    destruct (CurrentBlockNumber chain); [| discriminate].
    destruct (Z.eqb_spec (CumulativePayment header) 0) as [Hz | Hnz].
    - destruct (ActiveReservations chain !! AccountID header) as [r |]; [| discriminate].
      pose proof (ServeReservationRequest_Panic_inv m now header r s) as Hserve.
      destruct (ServeReservationRequest m now header r s) as [[[] | e | p] s1];
        try discriminate.
      cbn [fst snd] in *. intros [= <-].
      destruct (Hserve p eq_refl) as (-> & Hw & ->). auto.
    - destruct (OnDemandPayments chain !! AccountID header) as [d |]; [| discriminate].
      pose proof (ServeOnDemandRequest_Panic_inv m now header d s) as Hserve.
      destruct (ServeOnDemandRequest m now header d s) as [[[] | e | p] s1];
        try discriminate.
      cbn [fst snd] in *. intros [= <-].
      destruct (Hserve p eq_refl) as (-> & Hmin & _ & ->). auto. }
  split; [exact Hinv |]. split.
  - intros Hw Hmin reason Hpanic.
    destruct (Hinv reason Hpanic) as (_ & [(_ & Hz & _) | (_ & Hz & _)]); contradiction.
  - intros blockNumber reservation Hw Hblock Hcp Hres Hq.
    unfold MeterRequest, GetCurrentBlockNumber, GetActiveReservationByAccount.
    rewrite Hblock, Hcp, Hres. cbn [Z.eqb].
    unfold ServeReservationRequest. rewrite Hq.
    unfold ValidateBinIndex. rewrite Hw, GetBinIndex_zero. reflexivity.
Qed.

(** ** The quorum check's error *)

Lemma ValidateQuorum_loop_first_mismatch allowed q post :
  forall pre,
    Forall (fun x => In x allowed) pre ->
    ~ In q allowed ->
    ValidateQuorum_loop (pre ++ q :: post)%list allowed =
    Err (Errorf_d "quorum number mismatch: %d" q).
Proof.
  intros pre Hpre Hq.
  induction Hpre as [| x rest Hx _ IH]; simpl.
  - destruct (Contains allowed q) eqn:Hc; [apply Contains_In in Hc; contradiction |].
    reflexivity.
  - apply Contains_In in Hx. rewrite Hx. simpl. exact IH.
Qed.

(** X14.  The quorum check fails on the first quorum number, in the order
    of the header, that is not allowed, and names it in its error,
    whatever follows it; a header without quorum numbers gets the error of
    the empty list, whatever is allowed. *)
Theorem ValidateQuorum_reports_the_first_mismatch :
  forall (blobHeader : BlobHeader) (allowedQuoroms : list Z),
    (QuorumNumbers blobHeader = [] ->
     ValidateQuorum blobHeader allowedQuoroms =
     Err (Errorf "no quorum params in blob header")) /\
    (forall pre q post,
        QuorumNumbers blobHeader = (pre ++ q :: post)%list ->
        Forall (fun x => In x allowedQuoroms) pre ->
        ~ In q allowedQuoroms ->
        ValidateQuorum blobHeader allowedQuoroms =
        Err (Errorf_d "quorum number mismatch: %d" q)).
Proof.
  intros blobHeader allowedQuoroms. unfold ValidateQuorum. split.
  - intros ->. reflexivity.
  - intros pre q post -> Hpre Hq.
    destruct pre; simpl length; cbv iota;
      change (S _ =? 0)%nat with false; cbv iota;
      apply ValidateQuorum_loop_first_mismatch; assumption.
Qed.

(** ** Prices within 32 bits *)

(** X15.  Where the product of the chargeable size and the price fits in
    32 bits, the price of a blob is the exact ceiling: it covers the
    product and exceeds it by less than one minimum chargeable size.  It
    is then at least the price per chargeable unit, exactly that for every
    blob up to the minimum chargeable size, and it does not decrease when
    the blob grows. *)
Theorem PaymentCharged_is_exact_within_32_bits :
  forall (m : Config) (l1 l2 : Z),
    Config_wf m ->
    0 < MinChargeableSize m ->
    is_uint32 l1 -> is_uint32 l2 ->
    l1 <= l2 ->
    BlobSizeCharged m l2 * PricePerChargeable m < 4294967296 ->
    exists c1 c2,
      PaymentCharged m l1 = Ok c1 /\
      PaymentCharged m l2 = Ok c2 /\
      BlobSizeCharged m l1 * PricePerChargeable m <= c1 * MinChargeableSize m
        < BlobSizeCharged m l1 * PricePerChargeable m + MinChargeableSize m /\
      PricePerChargeable m <= c1 <= c2 /\
      (l1 <= MinChargeableSize m -> c1 = PricePerChargeable m).
Proof.
  intros m l1 l2 [_ Hprice Hmin _] Hpos Hl1 Hl2 Hle Hfit.
  unfold is_uint32 in *.
  rewrite !PaymentCharged_nonzero by lia.
  unfold BlobSizeCharged in *.
  set (d := MinChargeableSize m) in *. set (p := PricePerChargeable m) in *.
  assert (Hx2 : 0 <= Z.max l2 d * p) by nia.
  assert (Hx1 : 0 <= Z.max l1 d * p <= Z.max l2 d * p) by nia.
  rewrite !uint32_small by (unfold is_uint32; lia).
  rewrite !uint64_small by (unfold is_uint64; lia).
  eexists. eexists. split; [reflexivity |]. split; [reflexivity |].
  set (x1 := Z.max l1 d * p) in *. set (x2 := Z.max l2 d * p) in *.
  pose proof (Z.mul_div_le (x1 + d - 1) d Hpos) as Hlow.
  pose proof (Z.mul_succ_div_gt (x1 + d - 1) d Hpos) as Hhigh.
  set (c1 := (x1 + d - 1) / d) in *.
  assert (Hcover : x1 <= c1 * d < x1 + d) by lia.
  assert (Hbase : d * p <= x1) by (subst x1; nia).
  split; [exact Hcover |].
  split; [split; [nia | apply Z.div_le_mono; lia] |].
  intros Hsmall.
  assert (Hx : x1 = d * p) by (subst x1; rewrite Z.max_r by lia; reflexivity).
  nia.
Qed.

(** At 100 per 1024 bytes: 500 bytes cost 100, 3000 bytes cost 293. *)
Lemma PaymentCharged_is_exact_within_32_bits_witness :
  exists c1 c2,
    PaymentCharged example_config 500 = Ok c1 /\
    PaymentCharged example_config 3000 = Ok c2 /\
    c1 = 100 /\ c1 <= c2.
Proof.
  destruct (PaymentCharged_is_exact_within_32_bits example_config 500 3000)
    as (c1 & c2 & H1 & H2 & _ & Hmono & Hsmall).
  - exact example_config_wf.
  - cbn. lia.
  - unfold is_uint32. lia.
  - unfold is_uint32. lia.
  - lia.
  - unfold BlobSizeCharged. cbn. lia.
  - exists c1, c2. split; [exact H1 |]. split; [exact H2 |].
    split; [apply Hsmall; cbn; lia | lia].
Defined.

(** ** A second that is full *)

(** X16.  A second that has no room for a request never gets it back.  If
    the chargeable size of an on-demand request does not fit under the
    global rate on top of the counter of its second, the request is
    rejected, and it still is after any further requests have been
    metered: the counter of a second never goes down, and the requests
    the global limit rejects are counted too. *)
Theorem full_second_stays_closed :
  forall (m : Config) (chain : OnchainPaymentState) (requests : list (Z * BlobHeader))
         (now : Z) (header : BlobHeader) (s : OffchainStore),
    0 <= MinChargeableSize m ->
    CumulativePayment header <> 0 ->
    GlobalBytesPerSecond m
      < global_usage s (uint64 now) + BlobSizeCharged m (DataLength header) ->
    let s1 := MeterRequests m chain requests s in
    is_ok (fst (MeterRequest m chain now header s1)) = false /\
    global_usage s (uint64 now) <= global_usage (snd (MeterRequest m chain now header s1))
                                     (uint64 now).
Proof.
  intros m chain requests now header s Hmin Hcp Hfull s1.
  pose proof (MeterRequests_global_monotone m chain requests s (uint64 now) Hmin) as Hmono.
  fold s1 in Hmono.
  pose proof (MeterRequest_global_monotone m chain now header s1 (uint64 now) Hmin) as Hstep.
  split; [| lia].
  destruct (fst (MeterRequest m chain now header s1)) as [[] | e | p] eqn:Hout;
    try reflexivity.
  exfalso.
  assert (Hmeter : MeterRequest m chain now header s1 =
                   (Ok tt, snd (MeterRequest m chain now header s1))).
  { rewrite <- Hout. apply surjective_pairing. }
  destruct (MeterRequest_on_demand_Ok_inv _ _ _ _ _ _ Hcp Hmeter) as (d & _ & Hserve).
  destruct (ServeOnDemandRequest_Ok_inv _ _ _ _ _ _ Hserve) as (_ & s2 & _ & _ & Hcap & _).
  lia.
Qed.

(** A request of 1200000 bytes exceeds the rate of 1048576 and is rejected,
    but it is counted: a request of 1024 bytes in the same second is then
    rejected too, though it is accepted in an empty second. *)
Lemma full_second_stays_closed_witness :
  let s := MeterRequests example_config example_chain
             [(600, example_payment 1200000 200000)] empty_store in
  global_usage s 600 = 1200000 /\
  is_ok (fst (MeterRequest example_config example_chain 600 (example_payment 1024 100) s))
    = false /\
  is_ok (fst (MeterRequest example_config example_chain 601 (example_payment 1024 100) s))
    = true.
Proof.
  cbv zeta. split; [reflexivity |]. split; [| reflexivity].
  apply (full_second_stays_closed example_config example_chain [] 600
           (example_payment 1024 100)
           (MeterRequests example_config example_chain
              [(600, example_payment 1200000 200000)] empty_store)).
  - cbn. lia.
  - cbn. lia.
  - vm_compute. reflexivity.
Defined.
